(** * Kishu: versioned session state

    A shallow embedding of the metadata store ([storage/branch.py],
    [storage/commit.py]) and of the session controller ([jupyterint.py])
    of Kishu, and of the commit graph, the commit node record and the
    checkpoint and restore plans as the design document describes them,
    together with the properties of the design document that concern them.

    SQL tables with a primary key are finite maps from the key to the
    remaining columns; files are optional contents; Python dictionaries
    are finite maps; Python exceptions are the [Raise] branch of
    [result]. *)

From Stdlib Require Import ZArith NArith Lia Ascii String.
From Stdlib.Strings Require Import Byte.
From stdpp Require Import base option list gmap strings pretty.

Local Open Scope string_scope.
Local Open Scope list_scope.

(** ** Exceptions *)

(** The two messages [disambiguate_commit] raises [ValueError] with:
    [No commit with ID ...] and
    [Ambiguous commit ID ..., having many choices ...]. *)
Inductive ValueErrorMessage : Type :=
  | NoCommitWithID (commit_id : string)
  | AmbiguousCommitID (commit_id : string) (choices : list string)
  | NodeTooLarge (size limit : nat).

Inductive KishuError : Type :=
  | BranchConflictError (msg : string)
  | BranchNotFoundError (branch_name : string)
  | MissingCommitEntryError (commit_id : string)
  | ValueError (msg : ValueErrorMessage)
  | IntegrityError (table : string)
  | CommitIdNotExistError (commit_id : string)
  | UnpicklingError
  | UncaughtDecodeError.

Inductive result (A : Type) : Type :=
  | Ok (a : A)
  | Raise (e : KishuError).
Arguments Ok {A} a.
Arguments Raise {A} e.

(** ** storage/branch.py *)

Module Branch.

Record HeadBranch : Type := mkHead {
  branch_name : option string;
  commit_id : option string
}.

Record BranchRow : Type := mkRow {
  row_branch_name : string;
  row_commit_id : string
}.

(** What the head file holds, as [HeadBranch.from_json] sees it: the text
    written by [to_json] for some head, a text [json] rejects
    ([JSONDecodeError]), or JSON that is no head object, on which
    [from_json] raises another exception. *)
Inductive HeadText : Type :=
  | HeadJson (h : HeadBranch)
  | InvalidJson
  | UndecodableJson.

(** The state behind a [KishuBranch]: the [branch] table
    ([branch_name text primary key, commit_id text]) at [database_path]
    and the file at [head_path] ([None]: no such file). *)
Record KishuBranch : Type := mkStore {
  branch_table : gmap string string;
  head_file : option HeadText
}.

Definition set_table (t : gmap string string) (kb : KishuBranch) : KishuBranch :=
  {| branch_table := t; head_file := head_file kb |}.

Definition set_head_file (f : option HeadText) (kb : KishuBranch) : KishuBranch :=
  {| branch_table := branch_table kb; head_file := f |}.

Definition no_head : HeadBranch := mkHead None None.

(** [get_head]: [FileNotFoundError] and [json.decoder.JSONDecodeError] are
    caught; anything else [from_json] raises propagates. *)
Definition get_head (kb : KishuBranch) : result HeadBranch :=
  match head_file kb with
  | None => Ok no_head
  | Some InvalidJson => Ok no_head
  | Some (HeadJson h) => Ok h
  | Some UndecodableJson => Raise UncaughtDecodeError
  end.

Definition update_head (kb : KishuBranch) (new_branch : option string)
    (new_commit : option string) (is_detach : bool)
    : result HeadBranch * KishuBranch :=
  match get_head kb with
  | Raise e => (Raise e, kb)
  | Ok head =>
      let head1 :=
        if is_detach then mkHead None (commit_id head)
        else match new_branch with
             | Some b => mkHead (Some b) (commit_id head)
             | None => head
             end in
      let head2 :=
        match new_commit with
        | Some c => mkHead (branch_name head1) (Some c)
        | None => head1
        end in
      (Ok head2, set_head_file (Some (HeadJson head2)) kb)
  end.

(** [insert or replace into branch values (?, ?)] *)
Definition upsert_branch (kb : KishuBranch) (branch commit : string) : KishuBranch :=
  set_table (<[branch := commit]> (branch_table kb)) kb.

Definition list_branch (kb : KishuBranch) : list BranchRow :=
  (fun r => mkRow r.1 r.2) <$> map_to_list (branch_table kb).

Definition get_branch (kb : KishuBranch) (name : string) : list BranchRow :=
  match branch_table kb !! name with
  | Some c => [mkRow name c]
  | None => []
  end.

(** [select count( * ) from branch where branch_name = ?] compared to 1. *)
Definition _contains_branch (t : gmap string string) (name : string) : bool :=
  Nat.eqb (length (filter (fun r => r.1 = name) (map_to_list t))) 1.

Definition delete_branch (kb : KishuBranch) (name : string)
    : result unit * KishuBranch :=
  match get_head kb with
  | Raise e => (Raise e, kb)
  | Ok head =>
      if decide (Some name = branch_name head) then
        (Raise (BranchConflictError "Cannot delete the currently checked-out branch."), kb)
      else if negb (_contains_branch (branch_table kb) name) then
        (Raise (BranchNotFoundError name), kb)
      else (Ok tt, set_table (delete name (branch_table kb)) kb)
  end.

(** [update branch set branch_name = ? where branch_name = ?], run only
    once the old name is known to be present and the new one absent. *)
Definition sql_rename (t : gmap string string) (old_name new_name : string)
    : gmap string string :=
  match t !! old_name with
  | Some c => <[new_name := c]> (delete old_name t)
  | None => t
  end.

Definition rename_branch (kb : KishuBranch) (old_name new_name : string)
    : result unit * KishuBranch :=
  if negb (_contains_branch (branch_table kb) old_name) then
    (Raise (BranchNotFoundError old_name), kb)
  else if _contains_branch (branch_table kb) new_name then
    (Raise (BranchConflictError "The provided new branch name already exists."), kb)
  else
    let kb1 := set_table (sql_rename (branch_table kb) old_name new_name) kb in
    match get_head kb1 with
    | Raise e => (Raise e, kb1)
    | Ok head =>
        if decide (Some old_name = branch_name head) then
          match update_head kb1 (Some new_name) None false with
          | (Raise e, kb2) => (Raise e, kb2)
          | (Ok _, kb2) => (Ok tt, kb2)
          end
        else (Ok tt, kb1)
    end.

(** [select branch_name, commit_id from branch where commit_id = ?] *)
Definition branches_for_commit (kb : KishuBranch) (commit : string) : list BranchRow :=
  (fun r => mkRow r.1 r.2) <$> filter (fun r => r.2 = commit) (map_to_list (branch_table kb)).

(** The loop of [branches_for_many_commits] over the fetched rows:
    [branch_by_commit[commit_id]] starts as the empty list and gets the row
    appended. *)
Definition group_by_commit (branch_by_commit : gmap string (list BranchRow))
    (r : string * string) : gmap string (list BranchRow) :=
  <[r.2 := default [] (branch_by_commit !! r.2) ++ [mkRow r.1 r.2]]> branch_by_commit.

Section WithSqlite.
(** The largest number of [?] parameters SQLite takes in one statement; a
    statement with more raises [sqlite3.OperationalError]. *)
Variable SQLITE_MAX_VARIABLE_NUMBER : nat.

(** [select ... where commit_id in (?, ..., ?)] with one parameter per
    requested id; [sqlite3.OperationalError] is caught and gives the empty
    dictionary. *)
Definition branches_for_many_commits (kb : KishuBranch) (commit_ids : list string)
    : gmap string (list BranchRow) :=
  if Nat.ltb SQLITE_MAX_VARIABLE_NUMBER (length commit_ids) then ∅
  else foldl group_by_commit ∅
         (filter (fun r => r.2 ∈ commit_ids) (map_to_list (branch_table kb))).

End WithSqlite.

Definition BRANCH_NAME_ADJECTIVES : list string :=
  ["agile"; "algebraic"; "analytic"; "atomic"; "biochemical"; "biogenic";
   "catalytic"; "chaotic"; "chromatic"; "complex"; "convergent"; "cosmic";
   "diagonal"; "dynamic"; "electrostatic"; "elemental"; "entropic";
   "exponential"; "fractal"; "genetic"; "genomic"; "geometric"; "inertial";
   "integer"; "intrinsic"; "invariant"; "ionic"; "isotopic"; "iterative";
   "kinematic"; "kinetic"; "logarithmic"; "luminescent"; "luminous";
   "molecular"; "nebular"; "nebulous"; "neural"; "numeric"; "orthogonal";
   "oscillating"; "pulsating"; "quantum"; "radiant"; "radiogenic"; "rational";
   "recursive"; "resilient"; "resonant"; "scalar"; "sonic"; "statistical";
   "stellar"; "subatomic"; "symmetric"; "thermal"; "topological";
   "trigonometric"; "vibrant"; "viscous"].

Definition BRANCH_NAME_NOUNS : list string :=
  ["allele"; "atom"; "bacteria"; "beam"; "bolt"; "catalyst"; "cell"; "core";
   "cytoplasm"; "dna"; "doppler"; "electrode"; "electron"; "enzyme";
   "fermentation"; "flux"; "force"; "fuse"; "gene"; "genome"; "heat";
   "heliocentric"; "hydrocarbon"; "hypothesis"; "ion"; "isotope"; "kinetics";
   "lens"; "ligand"; "light"; "magnetism"; "mass"; "microorganism"; "nebula";
   "neuron"; "orb"; "orbit"; "oscillation"; "photosynthesis"; "pixel";
   "plasma"; "plasmid"; "polymer"; "prism"; "prokaryote"; "proton"; "pulse";
   "quantum"; "quark"; "radiance"; "reactor"; "rna"; "spark"; "spin";
   "supernova"; "thermodynamics"; "transcription"; "valve"; "vesicle"; "wave"].

(** [random_branch_name], given the two numbers [random.randint] draws,
    each between [0] and the length of its list minus one. *)
Definition random_branch_name (adj_idx noun_idx : nat) : string :=
  (BRANCH_NAME_ADJECTIVES !!! adj_idx) +:+ "_" +:+ (BRANCH_NAME_NOUNS !!! noun_idx).

End Branch.

(** ** The [LIKE] operator of SQLite

    [X LIKE Y] without [ESCAPE]: in the pattern [%] matches any sequence of
    characters and [_] any single one; every other character matches
    itself, ASCII letters regardless of case. *)

Module Like.

Definition to_lower (c : ascii) : ascii :=
  let n := nat_of_ascii c in
  if Nat.leb 65 n && Nat.leb n 90 then ascii_of_nat (n + 32) else c.

Definition is_wildcard (c : ascii) : bool :=
  Ascii.eqb c "%" || Ascii.eqb c "_".

Fixpoint like (pat : string) : string -> bool :=
  match pat with
  | EmptyString => fun s => match s with EmptyString => true | _ => false end
  | String c pat' =>
      if Ascii.eqb c "%" then
        fix any_sequence (s : string) : bool :=
          like pat' s ||
          match s with
          | EmptyString => false
          | String _ s' => any_sequence s'
          end
      else if Ascii.eqb c "_" then
        fun s => match s with
                 | EmptyString => false
                 | String _ s' => like pat' s'
                 end
      else
        fun s => match s with
                 | EmptyString => false
                 | String d s' => Ascii.eqb (to_lower c) (to_lower d) && like pat' s'
                 end
  end.

Fixpoint wildcard_free (p : string) : bool :=
  match p with
  | EmptyString => true
  | String c p' => negb (is_wildcard c) && wildcard_free p'
  end.

(** [p] is a prefix of [s] up to the case of ASCII letters. *)
Fixpoint iprefix (p s : string) : bool :=
  match p, s with
  | EmptyString, _ => true
  | String _ _, EmptyString => false
  | String c p', String d s' => Ascii.eqb (to_lower c) (to_lower d) && iprefix p' s'
  end.

Fixpoint no_upper (s : string) : bool :=
  match s with
  | EmptyString => true
  | String c s' => Ascii.eqb (to_lower c) c && no_upper s'
  end.

End Like.

(** ** Characters in strings *)

Module Text.

Fixpoint has_char (c : ascii) (s : string) : bool :=
  match s with
  | EmptyString => false
  | String d s' => Ascii.eqb c d || has_char c s'
  end.

(** The lines of a text: its parts between line feeds. *)
Fixpoint lines (s : string) : list string :=
  match s with
  | EmptyString => [EmptyString]
  | String c s' =>
      if Ascii.eqb c (ascii_of_nat 10) then EmptyString :: lines s'
      else match lines s' with
           | line :: rest => String c line :: rest
           | [] => [String c EmptyString]
           end
  end.

End Text.

(** ** storage/commit.py *)

Module Commit.

Inductive CommitEntryKind : Type := unspecified | jupyter | manual.

Record FormattedCell : Type := mkCell {
  cell_type : string;
  source : string;
  output : option string;
  cell_execution_count : option Z
}.

(** The fields of [CommitEntry] but the float-valued times and the
    [restore_plan] object. *)
Record CommitEntry : Type := mkEntry {
  commit_id : string;
  kind : CommitEntryKind;
  executed_cells : option (list string);
  raw_nb : option string;
  formatted_cells : option (list FormattedCell);
  message : string;
  ahg_string : option string;
  active_vses_string : option string;
  code_version : Z;
  varset_version : Z;
  execution_count : option Z;
  error_before_exec : option string;
  error_in_exec : option string;
  result_repr : option string;
  raw_cell : option string
}.

(** [dill] and [sys.getsizeof], which [storage/commit.py] imports. *)
Class Dill : Type := {
  bytes : Type;
  dumps_entry : CommitEntry -> bytes;
  dumps_state : option string -> bytes;
  loads_entry : bytes -> option CommitEntry;
  loads_state : bytes -> option (option string);
  getsizeof : bytes -> nat
}.

Section WithDill.
Context `{Dill}.

(** Tables [commit_entry] and [session_state], both
    [(commit_id text primary key, data blob)]. *)
Record KishuCommit : Type := mkCommitStore {
  commit_entry_table : gmap string bytes;
  session_state_table : gmap string bytes
}.

(** Two [insert into ... values (?, ?)], each followed by its own
    [con.commit()]; an [insert] of a primary key that is present raises
    [sqlite3.IntegrityError]. *)
Definition store_commit (kc : KishuCommit) (commit_entry : CommitEntry)
    : result nat * KishuCommit :=
  let commit_entry_dill := dumps_entry commit_entry in
  let session_state_dill := dumps_state (active_vses_string commit_entry) in
  match commit_entry_table kc !! commit_id commit_entry with
  | Some _ => (Raise (IntegrityError "commit_entry"), kc)
  | None =>
      let kc1 :=
        {| commit_entry_table :=
             <[commit_id commit_entry := commit_entry_dill]> (commit_entry_table kc);
           session_state_table := session_state_table kc |} in
      match session_state_table kc1 !! commit_id commit_entry with
      | Some _ => (Raise (IntegrityError "session_state"), kc1)
      | None =>
          let kc2 :=
            {| commit_entry_table := commit_entry_table kc1;
               session_state_table :=
                 <[commit_id commit_entry := session_state_dill]>
                   (session_state_table kc1) |} in
          (Ok (getsizeof (dumps_state (active_vses_string commit_entry))), kc2)
      end
  end.

Definition get_commit (kc : KishuCommit) (id : string) : result CommitEntry :=
  match commit_entry_table kc !! id with
  | None => Raise (MissingCommitEntryError id)
  | Some data =>
      match loads_entry data with
      | Some e => Ok e
      | None => Raise UnpicklingError
      end
  end.

Definition get_session_state (kc : KishuCommit) (id : string)
    : result (option string) :=
  match session_state_table kc !! id with
  | None => Raise (MissingCommitEntryError id)
  | Some data =>
      match loads_state data with
      | Some st => Ok st
      | None => Raise UnpicklingError
      end
  end.

(** [select commit_id from commit_entry where commit_id LIKE ?] with the
    parameter [commit_id_like + "%"]. *)
Definition keys_like (kc : KishuCommit) (commit_id_like : string) : list string :=
  filter (fun id => Like.like (commit_id_like +:+ "%") id = true)
         (map_to_list (commit_entry_table kc)).*1.

(** [update commit_entry set data = ? where commit_id = ?]: a row is
    rewritten when its key is there; no row is added and nothing is
    raised when it is not. *)
Definition update_commit (kc : KishuCommit) (commit_entry : CommitEntry) : KishuCommit :=
  {| commit_entry_table :=
       alter (fun _ => dumps_entry commit_entry) (commit_id commit_entry)
             (commit_entry_table kc);
     session_state_table := session_state_table kc |}.

(** What [get_commits] can raise: [sqlite3.OperationalError] (too many SQL
    variables) from [cur.execute], or what [dill.loads] raises on a row. *)
Inductive GetCommitsError : Type :=
  | OperationalError
  | LoadsError.

(** The body of the loop of [get_commits]:
    [result[key] = dill.loads(data)]. *)
Definition load_row (result : GetCommitsError + gmap string CommitEntry)
    (row : string * bytes) : GetCommitsError + gmap string CommitEntry :=
  match result with
  | inl err => inl err
  | inr result =>
      match loads_entry row.2 with
      | Some e => inr (<[row.1 := e]> result)
      | None => inl LoadsError
      end
  end.

Section WithSqlite.

(** The most [?] parameters SQLite takes in one statement. *)
Variable SQLITE_MAX_VARIABLE_NUMBER : nat.

(** [select commit_id, data from commit_entry where commit_id in (?, ..., ?)]
    with one [?] for each requested id. *)
Definition get_commits (kc : KishuCommit) (commit_ids : list string)
    : GetCommitsError + gmap string CommitEntry :=
  if Nat.ltb SQLITE_MAX_VARIABLE_NUMBER (length commit_ids) then inl OperationalError
  else foldl load_row (inr ∅)
         (filter (fun r => r.1 ∈ commit_ids) (map_to_list (commit_entry_table kc))).

End WithSqlite.

(** The two tables hold the same commit ids. *)
Definition same_ids (kc : KishuCommit) : Prop :=
  dom (commit_entry_table kc) = dom (session_state_table kc).

End WithDill.

End Commit.

(** ** jupyter/namespace.py *)

Module Namespace.

Section WithValue.
Context {Value : Type}.

(** Modelled from the spec: the [Namespace] proxy over the user
    dictionary, whose class is not under src/. Its key enumeration
    [keyset] gives the user's names: it leaves out the names Kishu
    registers with [Namespace.register_kishu_vars] and those IPython
    keeps in the user dictionary, here the set [unlisted]. [update]
    sets every key of the other namespace. *)
Variable unlisted : gset string.

Definition keyset (ns : gmap string Value) : gset string :=
  dom ns ∖ unlisted.

Definition update (ns other : gmap string Value) : gmap string Value :=
  other ∪ ns.

End WithValue.

End Namespace.

(** ** jupyterint.py *)

Module Jupyterint.
Import Commit.

Definition KISHU_INSTRUMENT : string := "_kishu".

(** The names given to [Namespace.register_kishu_vars]. *)
Definition KISHU_VARS : gset string :=
  {["kishu"; "init_kishu"; KISHU_INSTRUMENT]}.

Section WithDill.
Context `{Dill}.

Definition disambiguate_commit (kc : KishuCommit) (commit_id : string)
    : result string :=
  let possible_commit_ids := keys_like kc commit_id in
  if Nat.eqb (length possible_commit_ids) 0 then
    Raise (ValueError (NoCommitWithID commit_id))
  else if bool_decide (commit_id ∈ possible_commit_ids) then
    Ok commit_id
  else if Nat.ltb 1 (length possible_commit_ids) then
    Raise (ValueError (AmbiguousCommitID commit_id possible_commit_ids))
  else
    match possible_commit_ids with
    | first :: _ => Ok first
    | [] => Raise (ValueError (NoCommitWithID commit_id))
    end.

(** Python objects, the values of the user namespace. *)
Context {Value : Type}.

(** The state of a [KishuForJupyter] that [checkout] reads or writes:
    the stores, the id [self._kishu_graph.head()] returns, the user
    namespace (a dictionary from names to objects), the rows written
    through [self._cr_planner.write_row] (names only) and the
    configuration entry [PLANNER.incremental_cr]. *)
Record KishuForJupyter : Type := mkKishu {
  _kishu_commit : KishuCommit;
  _kishu_branch : Branch.KishuBranch;
  _kishu_graph_head : string;
  _user_ns : gmap string Value;
  _cr_planner_rows : list string;
  incremental_cr : bool
}.

Definition write_row (k : KishuForJupyter) (name : string) : KishuForJupyter :=
  {| _kishu_commit := _kishu_commit k;
     _kishu_branch := _kishu_branch k;
     _kishu_graph_head := _kishu_graph_head k;
     _user_ns := _user_ns k;
     _cr_planner_rows := _cr_planner_rows k ++ [name];
     incremental_cr := incremental_cr k |}.

(** The block under [if Config.get('PLANNER', 'incremental_cr', False)]:
    from the commit graph, the session-state table and the planner's
    AHG it computes the common ancestor and the sets of active variable
    snapshots into local variables that nothing reads afterwards. It
    writes no state; all it can do to the caller is raise. *)
Variable incremental_scan : KishuForJupyter -> string -> string -> result unit.

Definition checkout (k : KishuForJupyter) (branch_or_commit_id : string)
    (skip_notebook : bool) : result string * KishuForJupyter :=
  let retrieved_branches := Branch.get_branch (_kishu_branch k) branch_or_commit_id in
  let '(branch_name, commit_id, is_detach) :=
    match retrieved_branches with
    | [row] => (Some (Branch.row_branch_name row), Branch.row_commit_id row, false)
    | _ => (None, branch_or_commit_id, true)
    end in
  match disambiguate_commit (_kishu_commit k) commit_id with
  | Raise e => (Raise e, k)
  | Ok commit_id =>
      let k1 := write_row k "pre-checkout-time1" in
      match get_session_state (_kishu_commit k1) commit_id with
      | Raise e => (Raise e, k1)
      | Ok commit_entry_active_vses_string =>
          let current_commit_id := _kishu_graph_head k1 in
          match (if incremental_cr k1
                 then incremental_scan k1 commit_id current_commit_id
                 else Ok tt) with
          | Raise e => (Raise e, k1)
          | Ok _ =>
              let k2 := write_row k1 "pre-checkout-time" in
              if is_detach then
                (Ok ("Checkout " +:+ commit_id +:+ " in detach mode."), k2)
              else
                (Ok ("Checkout " +:+ branch_or_commit_id +:+ " (" +:+ commit_id +:+ ")."),
                 k2)
          end
      end
  end.

(** [_checkout_namespace]: [user_ns.update(target_ns)], then every key of
    [list(user_ns.keyset())] that is not in [target_ns] is deleted.
    [unlisted] is what [keyset] leaves out, see [Namespace]. *)
Definition _checkout_namespace (unlisted : gset string)
    (user_ns target_ns : gmap string Value) : gmap string Value :=
  let user_ns := Namespace.update user_ns target_ns in
  foldl (fun ns key => if decide (key ∈ dom target_ns) then ns else delete key ns)
        user_ns (elements (Namespace.keyset unlisted user_ns)).

End WithDill.

End Jupyterint.

(** ** jupyterint.py: notebook cells, commit ids and the branch step *)

Module JupyterintCells.
Import Commit.

(** One entry of [cell.outputs], a dictionary: a key that is absent is
    [None], and reading it raises [KeyError]. *)
Record CellOutput : Type := mkOutput {
  output_type : option string;
  text : option string;
  data : option (gmap string string);
  traceback : option (list string);
  ename : option string;
  evalue : option string
}.

Record NotebookCell : Type := mkNotebookCell {
  nb_cell_type : string;
  nb_source : string;
  nb_outputs : list CellOutput;
  nb_execution_count : option Z
}.

(** What [_parse_cell_output] and [_all_notebook_cells] raise: [KeyError]
    and the three [ValueError]s
    [Unknown output data structure], [Unknown output type] and
    [Unknown cell type]. *)
Inductive NotebookError : Type :=
  | KeyError (key : string)
  | UnknownOutputDataStructure (data : gmap string string)
  | UnknownOutputType (cell_output : CellOutput)
  | UnknownCellType (cell_type : string).

Definition SAVE_CMD : string :=
  "try { IPython.notebook.save_checkpoint(); } catch { }".

Definition line_feed : string := String (ascii_of_nat 10) EmptyString.

(** The test under [# Filter auto-saving output.] *)
Definition is_save_output (cell_output : CellOutput) : NotebookError + bool :=
  match output_type cell_output with
  | None => inl (KeyError "output_type")
  | Some t =>
      if String.eqb t "display_data" then
        match data cell_output with
        | None => inl (KeyError "data")
        | Some d =>
            inr (String.eqb (default EmptyString (d !! "application/javascript")) SAVE_CMD)
        end
      else inr false
  end.

(** The part under [# Now parse output into text.] *)
Definition parse_output (cell_output : CellOutput) : NotebookError + string :=
  match output_type cell_output with
  | None => inl (KeyError "output_type")
  | Some t =>
      if String.eqb t "stream" then
        match text cell_output with
        | None => inl (KeyError "text")
        | Some s => inr s
        end
      else if String.eqb t "execute_result" then
        match data cell_output with
        | None => inl (KeyError "data")
        | Some d =>
            match d !! "text/plain" with
            | Some s => inr s
            | None => inl (UnknownOutputDataStructure d)
            end
        end
      else if String.eqb t "display_data" then
        match data cell_output with
        | None => inl (KeyError "data")
        | Some d => inr (default "<display_data>" (d !! "text/plain"))
        end
      else if String.eqb t "error" then
        match traceback cell_output with
        | None => inl (KeyError "traceback")
        | Some tb =>
            match ename cell_output with
            | None => inl (KeyError "ename")
            | Some n =>
                match evalue cell_output with
                | None => inl (KeyError "evalue")
                | Some v => inr (String.concat line_feed (tb ++ [n +:+ ": " +:+ v]))
                end
            end
        end
      else inl (UnknownOutputType cell_output)
  end.

Fixpoint _parse_cell_output (cell_outputs : list CellOutput)
    : NotebookError + option string :=
  match cell_outputs with
  | [] => inr None
  | cell_output :: rest =>
      match is_save_output cell_output with
      | inl err => inl err
      | inr true => _parse_cell_output rest
      | inr false =>
          match parse_output cell_output with
          | inl err => inl err
          | inr s => inr (Some s)
          end
      end
  end.

(** The body of the loop of [_all_notebook_cells]. *)
Definition format_cell (cell : NotebookCell) : NotebookError + FormattedCell :=
  if String.eqb (nb_cell_type cell) "code" then
    match _parse_cell_output (nb_outputs cell) with
    | inl err => inl err
    | inr out =>
        inr (mkCell (nb_cell_type cell) (nb_source cell) out (nb_execution_count cell))
    end
  else if String.eqb (nb_cell_type cell) "markdown" || String.eqb (nb_cell_type cell) "raw" then
    inr (mkCell (nb_cell_type cell) (nb_source cell) None None)
  else inl (UnknownCellType (nb_cell_type cell)).

Definition append_cell (nb_cells : NotebookError + list FormattedCell)
    (cell : NotebookCell) : NotebookError + list FormattedCell :=
  match nb_cells with
  | inl err => inl err
  | inr nb_cells =>
      match format_cell cell with
      | inl err => inl err
      | inr formatted => inr (nb_cells ++ [formatted])
      end
  end.

Section WithNbformat.

(** [nbformat.writes], on the cells of the notebook read. *)
Variable writes : list NotebookCell -> string.

Definition _all_notebook_cells (cells : list NotebookCell)
    : NotebookError + (string * list FormattedCell) :=
  match foldl append_cell (inr []) cells with
  | inl err => inl err
  | inr nb_cells => inr (writes cells, nb_cells)
  end.

End WithNbformat.

(** [_commit_id]: [str] of an [int] is its decimal text; [uuid4_hex] is
    the text [uuid.uuid4().hex] draws. *)
Definition _commit_id (_commit_id_mode : string) (_session_id _last_execution_count : Z)
    (uuid4_hex : string) : string :=
  if String.eqb _commit_id_mode "counter" then
    pretty _session_id +:+ ":" +:+ pretty _last_execution_count
  else uuid4_hex.

(** [short_raw_cell] of [post_run_cell]. *)
Definition short_raw_cell (raw_cell : string) : string :=
  if Nat.leb (String.length raw_cell) 40 then raw_cell
  else String.substring 0 40 raw_cell +:+ "...".

(** [_step_branch]; [adj_idx] and [noun_idx] are what
    [random_branch_name] draws. *)
Definition _step_branch (_enable_auto_branch : bool) (adj_idx noun_idx : nat)
    (kb : Branch.KishuBranch) (commit_id : string) : result unit * Branch.KishuBranch :=
  match Branch.update_head kb None (Some commit_id) false with
  | (Raise e, kb1) => (Raise e, kb1)
  | (Ok head, kb1) =>
      if _enable_auto_branch && bool_decide (Branch.branch_name head = None) then
        let new_branch_name := Branch.random_branch_name adj_idx noun_idx in
        let kb2 := Branch.upsert_branch kb1 new_branch_name commit_id in
        match Branch.update_head kb2 (Some new_branch_name) (Some commit_id) false with
        | (Raise e, kb3) => (Raise e, kb3)
        | (Ok _, kb3) => (Ok tt, kb3)
        end
      else
        match Branch.branch_name head with
        | Some b => (Ok tt, Branch.upsert_branch kb1 b commit_id)
        | None => (Ok tt, kb1)
        end
  end.

End JupyterintCells.

(** ** cli.py *)

Module Cli.

(** The two subclasses of [CommitPrinter]. *)
Inductive CommitPrinter : Type :=
  | BasicCommitPrinter
  | GraphCommitPrinter.

Definition indentation : string := "    ".

(** [add_line] appends [f"{prefix}{indent}{text}"] to [self.output]. *)
Definition add_line (output : list string) (text : string) (is_indented : bool)
    (prefix : string) : list string :=
  let indent := if is_indented then indentation else EmptyString in
  output ++ [prefix +:+ indent +:+ text].

Definition add_commit_line (printer : CommitPrinter) (output : list string)
    (text : string) (is_indented is_first_line : bool) : list string :=
  match printer with
  | BasicCommitPrinter => add_line output text is_indented EmptyString
  | GraphCommitPrinter =>
      let prefix := if is_first_line then "* " else "| " in
      add_line output text is_indented prefix
  end.

(** The fields of [CommitSummary] that [_format_commit] reads, as the
    texts it prints; an empty [parent_id] stands for [None] as well, both
    being false in the test of [_format_commit]. *)
Record CommitSummary : Type := mkSummary {
  commit_id : string;
  parent_id : string;
  message : string;
  timestamp : string;
  branches : list string;
  tags : list string
}.

Definition truthy (s : string) : bool :=
  match s with EmptyString => false | String _ _ => true end.

(** [printer.output] when [_format_commit] returns. *)
Definition _format_commit_output (commit : CommitSummary)
    (include_parent_id graph : bool) : list string :=
  let printer := if negb graph then BasicCommitPrinter else GraphCommitPrinter in
  let ref_names := String.concat ", " (branches commit ++ tags commit) in
  let ref_str := if truthy ref_names then " (" +:+ ref_names +:+ ")" else EmptyString in
  let output :=
    add_commit_line printer [] ("commit " +:+ commit_id commit +:+ ref_str) false true in
  let output :=
    if include_parent_id && truthy (parent_id commit)
    then add_commit_line printer output ("Parent: " +:+ parent_id commit) false false
    else output in
  let output := add_commit_line printer output ("Date:   " +:+ timestamp commit) false false in
  let output := add_commit_line printer output EmptyString false false in
  let output := add_commit_line printer output (message commit) true false in
  add_commit_line printer output EmptyString false false.

Definition _format_commit (commit : CommitSummary) (include_parent_id graph : bool)
    : string :=
  String.concat JupyterintCells.line_feed
    (_format_commit_output commit include_parent_id graph).

(** No field of the summary holds a line feed. *)
Definition single_line (commit : CommitSummary) : Prop :=
  Forall (fun field => Text.has_char (ascii_of_nat 10) field = false)
         (commit_id commit :: parent_id commit :: message commit :: timestamp commit
          :: branches commit ++ tags commit).

End Cli.

(** ** The commit graph

    The module [kishu.commit_graph] is exercised by
    [tests/test_commit_graph.py]; its operations are described in the design
    document (4.1). *)

Module CommitGraph.

Record CommitInfo : Type := mkInfo {
  commit_id : string;
  parent_id : string
}.

(** Modelled from the spec: the record [CommitNode] kept by the graph,
    [{commit_id, parent_id, position, parent_position}]. A position
    [(segment, offset)] is flattened to the ordinal of the record in the
    append-only store; a node without parent has no parent position. *)
Record CommitNode : Type := mkNode {
  info : CommitInfo;
  position : nat;
  parent_position : option nat
}.

(** Modelled from the spec: the state of [KishuCommitGraph], an
    append-only store of nodes, the in-memory index from commit id to
    position, and HEAD. *)
Record KishuCommitGraph : Type := mkGraph {
  nodes : list CommitNode;
  index : gmap string nat;
  head_position : option nat
}.

Definition new_in_memory : KishuCommitGraph := mkGraph [] ∅ None.

(** Modelled from the spec: [head()], the current HEAD commit id, or the
    empty id. *)
Definition head (g : KishuCommitGraph) : string :=
  match head_position g with
  | Some p =>
      match nodes g !! p with
      | Some n => commit_id (info n)
      | None => ""
      end
  | None => ""
  end.

Definition append_node (g : KishuCommitGraph) (i : CommitInfo)
    (parent : option nat) : KishuCommitGraph :=
  let pos := length (nodes g) in
  {| nodes := nodes g ++ [mkNode i pos parent];
     index := <[commit_id i := pos]> (index g);
     head_position := Some pos |}.

(** Modelled from the spec: [step(commit_id)] appends a node whose parent
    is the current HEAD. *)
Definition step (g : KishuCommitGraph) (c : string) : KishuCommitGraph :=
  append_node g (mkInfo c (head g)) (head_position g).

(** Modelled from the spec: [jump(commit_id)] sets HEAD to the commit; an
    unknown id is appended as a node with empty parent. *)
Definition jump (g : KishuCommitGraph) (c : string) : KishuCommitGraph :=
  match index g !! c with
  | Some p => {| nodes := nodes g; index := index g; head_position := Some p |}
  | None => append_node g (mkInfo c "") None
  end.

(** The walk along parent positions; [fuel] bounds the number of nodes
    visited. *)
Fixpoint walk (fuel : nat) (store : list CommitNode) (pos : option nat)
    : list CommitInfo :=
  match fuel with
  | O => []
  | S fuel' =>
      match pos with
      | None => []
      | Some p =>
          match store !! p with
          | None => []
          | Some n => info n :: walk fuel' store (parent_position n)
          end
      end
  end.

(** Modelled from the spec: [list_history(commit_id?)] returns the
    ancestors, newest first, of the given commit or of HEAD. No chain is
    longer than the store, so the walk gets that much fuel. *)
Definition list_history (g : KishuCommitGraph) (c : option string)
    : list CommitInfo :=
  let start :=
    match c with
    | Some id => index g !! id
    | None => head_position g
    end in
  walk (length (nodes g)) (nodes g) start.

Inductive operation : Type :=
  | Step (c : string)
  | Jump (c : string).

Definition apply (g : KishuCommitGraph) (o : operation) : KishuCommitGraph :=
  match o with
  | Step c => step g c
  | Jump c => jump g c
  end.

(** The graph reached from the empty one by a sequence of operations. *)
Definition run (ops : list operation) : KishuCommitGraph :=
  foldl apply new_in_memory ops.

(** The history expected after stepping through [cs] from a HEAD whose id
    is [parent]: newest first, each commit with its predecessor. *)
Fixpoint chain (parent : string) (cs : list string) : list CommitInfo :=
  match cs with
  | [] => []
  | c :: cs' => chain c cs' ++ [mkInfo c parent]
  end.

(** Every record sits at its own position, points to an earlier record,
    and has the empty parent id when it points nowhere. *)
Definition wf_nodes (store : list CommitNode) : Prop :=
  forall i n, store !! i = Some n ->
    position n = i /\
    match parent_position n with
    | Some p => p < i /\
        exists m, store !! p = Some m /\ parent_id (info n) = commit_id (info m)
    | None => parent_id (info n) = ""
    end.

Record wf (g : KishuCommitGraph) : Prop := {
  wf_store : wf_nodes (nodes g);
  wf_index : forall c p, index g !! c = Some p ->
    exists n, nodes g !! p = Some n /\ commit_id (info n) = c;
  wf_head : forall p, head_position g = Some p -> p < length (nodes g)
}.

End CommitGraph.

(** ** The fixed-width commit node record

    [CommitNode.serialize] and [CommitNode.deserialize] belong to
    [kishu.commit_graph], of which the repository here has the tests only. *)

Module CommitNode.

(** [(segment, offset)] into the append-only store. *)
Definition Position : Type := N * N.

(** Modelled from the spec: the on-disk record
    [{commit_id, parent_id, position, parent_position}]; [None] stands for
    [UNSET_POSITION]. *)
Record CommitNode : Type := mkNode {
  commit_id : string;
  parent_id : string;
  position : option Position;
  parent_position : option Position
}.

Definition UNSET_POSITION : option Position := None.

Definition byte_of_N (n : N) : byte := default Byte.x00 (Byte.of_N n).

(** Numbers are written seven bits at a time, low group first, the high
    bit of a byte telling that more follows. *)
Fixpoint encode_varint_fuel (fuel : nat) (n : N) : list byte :=
  match fuel with
  | O => [byte_of_N (n mod 128)]
  | S fuel' =>
      if (n <? 128)%N then [byte_of_N n]
      else byte_of_N (128 + n mod 128) :: encode_varint_fuel fuel' (n / 128)
  end.

Definition encode_varint (n : N) : list byte :=
  encode_varint_fuel (N.to_nat (N.size n)) n.

Fixpoint decode_varint (bs : list byte) : option (N * list byte) :=
  match bs with
  | [] => None
  | b :: bs' =>
      let v := Byte.to_N b in
      if (v <? 128)%N then Some (v, bs')
      else
        match decode_varint bs' with
        | Some (hi, rest) => Some ((v - 128 + 128 * hi)%N, rest)
        | None => None
        end
  end.

(** An id is written as its length followed by its bytes. *)
Definition encode_string (s : string) : list byte :=
  let bs := list_byte_of_string s in
  encode_varint (N.of_nat (length bs)) ++ bs.

Definition decode_string (bs : list byte) : option (string * list byte) :=
  match decode_varint bs with
  | None => None
  | Some (n, rest) =>
      if Nat.ltb (length rest) (N.to_nat n) then None
      else Some (string_of_list_byte (take (N.to_nat n) rest), drop (N.to_nat n) rest)
  end.

Definition encode_position (p : option Position) : list byte :=
  match p with
  | None => [Byte.x00]
  | Some (segment, offset) => Byte.x01 :: encode_varint segment ++ encode_varint offset
  end.

Definition decode_position (bs : list byte) : option (option Position * list byte) :=
  match bs with
  | Byte.x00 :: rest => Some (None, rest)
  | Byte.x01 :: rest =>
      match decode_varint rest with
      | None => None
      | Some (segment, rest1) =>
          match decode_varint rest1 with
          | None => None
          | Some (offset, rest2) => Some (Some (segment, offset), rest2)
          end
      end
  | _ => None
  end.

Definition payload (node : CommitNode) : list byte :=
  encode_string (commit_id node) ++ encode_string (parent_id node) ++
  encode_position (position node) ++ encode_position (parent_position node).

Section Slot.
(** The width of a slot; the design document gives it no value. *)
Variable NODE_SIZE : nat.

(** Modelled from the spec: [serialize] fills a slot of [NODE_SIZE] bytes
    with the fields of the node, padded with zero bytes, and raises
    [ValueError] (node too large) when they do not fit. *)
Definition serialize (node : CommitNode) : result (list byte) :=
  let data := payload node in
  if Nat.ltb NODE_SIZE (length data) then
    Raise (ValueError (NodeTooLarge (length data) NODE_SIZE))
  else Ok (data ++ replicate (NODE_SIZE - length data) Byte.x00).

End Slot.

(** Modelled from the spec: [deserialize] reads the fields back from a
    slot; what follows them is padding. *)
Definition deserialize (slot : list byte) : option CommitNode :=
  match decode_string slot with
  | None => None
  | Some (cid, rest1) =>
      match decode_string rest1 with
      | None => None
      | Some (pid, rest2) =>
          match decode_position rest2 with
          | None => None
          | Some (pos, rest3) =>
              match decode_position rest3 with
              | None => None
              | Some (ppos, _) => Some (mkNode cid pid pos ppos)
              end
          end
      end
  end.

End CommitNode.

(** ** Checkpoint and restore plans

    [kishu.planning.plan] and [kishu.storage.checkpoint] are exercised by
    [tests/planning/test_plan.py]; the design document describes them in
    4.3, 4.5 and 4.6. *)

Module Plan.

Section WithRuntime.
(** Python objects and pickled snapshots; the serializer, which fails
    with [None]; and the evaluator, which runs the code of a cell on a
    namespace and yields the namespace it leaves. *)
Context {Value Blob : Type}.
Variable dumps : gmap string Value -> option Blob.
Variable loads : Blob -> option (gmap string Value).
Variable run_cell : string -> gmap string Value -> gmap string Value.

(** [(names, version)], the primary key of a stored variable snapshot. *)
Definition VersionedName : Type := list string * nat.

Definition restrict (names : list string) (ns : gmap string Value)
    : gmap string Value :=
  filter (fun kv => kv.1 ∈ names) ns.

(** Modelled from the spec: the VariableStore, table
    [variable_kv(commit_id, names, version, blob)], with
    [put(commit_id, versioned_name, blob)]. *)
Definition put (store : gmap (string * VersionedName) Blob) (commit_id : string)
    (vn : VersionedName) (blob : Blob) : gmap (string * VersionedName) Blob :=
  <[(commit_id, vn) := blob]> store.

(** The snapshots stored for one commit. *)
Definition snapshots_of (store : gmap (string * VersionedName) Blob)
    (commit_id : string) : list Blob :=
  (map_to_list (filter (fun kv => kv.1.1 = commit_id) store)).*2.

Record StoreVariable : Type := mkStoreVariable {
  versioned_name : VersionedName
}.

Record CheckpointPlan : Type := mkCheckpointPlan {
  checkpoint_commit_id : string;
  checkpoint_actions : list StoreVariable
}.

(** Modelled from the spec: [CheckpointPlan.run(namespace)] serializes
    each variable snapshot and persists it to the VariableStore; a
    snapshot that fails to serialize is recorded and skipped. The
    result is the store and the actions that failed. *)
Definition store_variable (commit_id : string) (namespace : gmap string Value)
    (acc : gmap (string * VersionedName) Blob * list StoreVariable)
    (action : StoreVariable)
    : gmap (string * VersionedName) Blob * list StoreVariable :=
  match dumps (restrict (versioned_name action).1 namespace) with
  | Some blob => (put acc.1 commit_id (versioned_name action) blob, acc.2)
  | None => (acc.1, acc.2 ++ [action])
  end.

Definition checkpoint_run (plan : CheckpointPlan) (namespace : gmap string Value)
    (store : gmap (string * VersionedName) Blob)
    : gmap (string * VersionedName) Blob * list StoreVariable :=
  foldl (store_variable (checkpoint_commit_id plan) namespace)
        (store, []) (checkpoint_actions plan).

(** Modelled from the spec: the actions of a RestorePlan. A context of
    [IncrementalLoad] is [(cell_num, commit_id)]. *)
Inductive RestoreAction : Type :=
  | LoadVariable (cell_num : nat) (names : list string)
      (fallback_cells : list (nat * string))
  | IncrementalLoad (cell_num : nat)
      (versioned_names : list (VersionedName * (nat * string)))
      (fallback_cells : list (nat * string))
  | MoveVariable (cell_num : nat) (source_ns : gmap string Value)
  | RerunCell (cell_num : nat) (code : string).

Inductive LoadOutcome : Type :=
  | NoSnapshot
  | LoadFailed
  | Loaded (ns : gmap string Value).

Definition deserialize_all (blobs : list Blob) : option (gmap string Value) :=
  foldr (fun blob acc =>
           match loads blob, acc with
           | Some ns, Some rest => Some (ns ∪ rest)
           | _, _ => None
           end)
        (Some ∅) blobs.

(** The listed names out of a deserialized namespace; a missing name is
    a failure. *)
Definition pick (names : list string) (ns : gmap string Value)
    : option (gmap string Value) :=
  if forallb (fun name => bool_decide (is_Some (ns !! name))) names
  then Some (restrict names ns) else None.

(** Modelled from the spec: [LoadVariable] deserializes the snapshots of
    the target commit and takes the names listed. A commit without
    stored snapshots is the error [CommitIdNotExist]; a blob that does
    not deserialize, or a name that is not in it, is a failed load. *)
Definition load_variable (store : gmap (string * VersionedName) Blob)
    (commit_id : string) (names : list string) : LoadOutcome :=
  match snapshots_of store commit_id with
  | [] => NoSnapshot
  | blobs =>
      match deserialize_all blobs ≫= pick names with
      | Some ns => Loaded ns
      | None => LoadFailed
      end
  end.

(** Modelled from the spec: [get_variable_snapshots] fetches the blobs of
    the requested versioned names in request order; a missing entry
    raises, which fails the batched load. *)
Definition incremental_load (store : gmap (string * VersionedName) Blob)
    (requests : list (VersionedName * (nat * string))) : LoadOutcome :=
  match mapM (fun request => store !! (request.2.2, request.1)) requests with
  | None => LoadFailed
  | Some blobs =>
      match deserialize_all blobs with
      | Some ns => Loaded ns
      | None => LoadFailed
      end
  end.

(** Modelled from the spec: [RerunCell] executes the code in a fresh
    evaluator seeded with the current result namespace and merges the
    outcome back. *)
Definition rerun (result_ns : gmap string Value) (code : string)
    : gmap string Value :=
  run_cell code result_ns ∪ result_ns.

(** Modelled from the spec: the fallback of a failed load. The glossary
    has a fallback action be a [RerunCell] substituted for the failed
    [LoadVariable]: the fallback cells are rerun, in order, each as a
    [RerunCell] would be. *)
Definition run_fallback (result_ns : gmap string Value)
    (fallback_cells : list (nat * string)) : gmap string Value :=
  foldl (fun ns cell => rerun ns cell.2) result_ns fallback_cells.

Record RestoreState : Type := mkRestoreState {
  result_ns : gmap string Value;
  fallbacked_actions : list RestoreAction
}.

Definition fall_back (st : RestoreState) (action : RestoreAction)
    (fallback_cells : list (nat * string)) : RestoreState :=
  {| result_ns := run_fallback (result_ns st) fallback_cells;
     fallbacked_actions := fallbacked_actions st ++ [action] |}.

Definition merge_into (st : RestoreState) (ns : gmap string Value) : RestoreState :=
  {| result_ns := ns ∪ result_ns st;
     fallbacked_actions := fallbacked_actions st |}.

Definition run_action (store : gmap (string * VersionedName) Blob)
    (commit_id : string) (st : RestoreState) (action : RestoreAction)
    : result RestoreState :=
  match action with
  | LoadVariable _ names fallback_cells =>
      match load_variable store commit_id names with
      | NoSnapshot => Raise (CommitIdNotExistError commit_id)
      | LoadFailed => Ok (fall_back st action fallback_cells)
      | Loaded ns => Ok (merge_into st ns)
      end
  | IncrementalLoad _ requests fallback_cells =>
      match incremental_load store requests with
      | Loaded ns => Ok (merge_into st ns)
      | _ => Ok (fall_back st action fallback_cells)
      end
  | MoveVariable _ source_ns => Ok (merge_into st source_ns)
  | RerunCell _ code =>
      Ok {| result_ns := rerun (result_ns st) code;
            fallbacked_actions := fallbacked_actions st |}
  end.

Fixpoint run_actions (store : gmap (string * VersionedName) Blob)
    (commit_id : string) (st : RestoreState) (actions : list RestoreAction)
    : result RestoreState :=
  match actions with
  | [] => Ok st
  | action :: rest =>
      match run_action store commit_id st action with
      | Ok st' => run_actions store commit_id st' rest
      | Raise e => Raise e
      end
  end.

(** Modelled from the spec: [RestorePlan.run(filename, target_commit_id)]
    starts from an empty result namespace and executes the actions in
    order; it returns the namespace assembled, here together with
    [fallbacked_actions]. *)
Definition restore_run (actions : list RestoreAction)
    (store : gmap (string * VersionedName) Blob) (commit_id : string)
    : result RestoreState :=
  run_actions store commit_id (mkRestoreState ∅ []) actions.

Definition is_load (action : RestoreAction) : bool :=
  match action with
  | LoadVariable _ _ _ => true
  | _ => false
  end.

(** The load of the action fails where the plan is run. *)
Definition load_fails (store : gmap (string * VersionedName) Blob)
    (commit_id : string) (action : RestoreAction) : bool :=
  match action with
  | LoadVariable _ names _ =>
      match load_variable store commit_id names with
      | LoadFailed => true
      | _ => false
      end
  | _ => false
  end.

(** *** What the properties of the plans are stated with *)

(** Re-executed on a part of [N], the cell yields a part of [N]. *)
Definition replays (N : gmap string Value) (code : string) : Prop :=
  forall ns, ns ⊆ N -> run_cell code ns ⊆ N.

(** The cell leaves the name bound, wherever it is run. *)
Definition defines (code : string) (name : string) : Prop :=
  forall ns, is_Some (run_cell code ns !! name).

(** The action can only bring values of [N] into the result. *)
Definition sound (N : gmap string Value)
    (store : gmap (string * VersionedName) Blob) (commit_id : string)
    (action : RestoreAction) : Prop :=
  match action with
  | LoadVariable _ names fallback_cells =>
      match load_variable store commit_id names with
      | Loaded ns => ns ⊆ N
      | LoadFailed => Forall (fun cell => replays N cell.2) fallback_cells
      | NoSnapshot => False
      end
  | RerunCell _ code => replays N code
  | _ => False
  end.

(** The action brings the name into the result. *)
Definition provides (store : gmap (string * VersionedName) Blob)
    (commit_id : string) (name : string) (action : RestoreAction) : Prop :=
  match action with
  | LoadVariable _ names fallback_cells =>
      match load_variable store commit_id names with
      | Loaded ns => is_Some (ns !! name)
      | LoadFailed => Exists (fun cell => defines cell.2 name) fallback_cells
      | NoSnapshot => False
      end
  | RerunCell _ code => defines code name
  | _ => False
  end.

(** Every part of [N] serializes, and deserializes to itself. *)
Definition serializable (N : gmap string Value) : Prop :=
  forall ns, ns ⊆ N -> exists blob, dumps ns = Some blob /\ loads blob = Some ns.

(** What makes a restore action belong to a plan for the checkpoint of
    [N]: a load names variables of [N] that the checkpoint stored; a
    rerun cell replays [N]. *)
Definition restores_from (N : gmap string Value) (plan : CheckpointPlan)
    (action : RestoreAction) : Prop :=
  match action with
  | LoadVariable _ names _ =>
      checkpoint_actions plan <> [] /\
      forall name, name ∈ names ->
        name ∈ dom N /\
        exists a, a ∈ checkpoint_actions plan /\ name ∈ (versioned_name a).1
  | RerunCell _ code => replays N code
  | _ => False
  end.

(** The action loads the name, or reruns a cell that defines it. *)
Definition yields (name : string) (action : RestoreAction) : Prop :=
  match action with
  | LoadVariable _ names _ => name ∈ names
  | RerunCell _ code => defines code name
  | _ => False
  end.






End WithRuntime.

Arguments RestoreAction : clear implicits.
Arguments RestoreState : clear implicits.
Arguments LoadOutcome : clear implicits.

End Plan.

(** ** Sample stores, sessions and runtimes *)

Module Samples.
Import Commit.

(** A stand-in for [dill]: a string pickles to itself, an entry to its id
    and message; [sys.getsizeof] of a [bytes] object is its length plus a
    fixed header. *)
#[local] Instance text_dill : Dill := {|
  bytes := string;
  dumps_entry e := commit_id e +:+ ":" +:+ message e;
  dumps_state st := default "" st;
  loads_entry b := None;
  loads_state b := Some (Some b);
  getsizeof b := 33 + String.length b
|}.

(** Another stand-in for [dill]: an object pickles to itself. *)
Definition object_dill : Dill := {|
  bytes := CommitEntry + option string;
  dumps_entry e := inl e;
  dumps_state st := inr st;
  loads_entry b := match b with inl e => Some e | inr _ => None end;
  loads_state b := match b with inl _ => None | inr st => Some st end;
  getsizeof b := 33
|}.

Definition entry_of (id msg : string) (vses : option string) : CommitEntry :=
  {| commit_id := id; kind := manual; executed_cells := None; raw_nb := None;
     formatted_cells := None; message := msg; ahg_string := None;
     active_vses_string := vses; code_version := 0; varset_version := 0;
     execution_count := None; error_before_exec := None; error_in_exec := None;
     result_repr := None; raw_cell := None |}.

Definition object_commits : @KishuCommit object_dill :=
  @mkCommitStore object_dill
    (<["c0" := @dumps_entry object_dill (entry_of "c0" "first" (Some "x"))]> ∅)
    (<["c0" := @dumps_state object_dill (Some "x")]> ∅).

Definition kb_two_branches : Branch.KishuBranch :=
  {| Branch.branch_table := <["main" := "c1"]> (<["dev" := "c2"]> ∅);
     Branch.head_file := Some (Branch.HeadJson (Branch.mkHead (Some "main") (Some "c1"))) |}.

Definition empty_commits : KishuCommit := mkCommitStore ∅ ∅.

Definition commits_of (ids : list string) : KishuCommit :=
  foldr (fun id kc => (store_commit kc (entry_of id "m" (Some "vs"))).2)
        empty_commits ids.

(** A session with commits [c0] and [c1], branch [main] at [c1], HEAD
    detached at [c0] and one live variable. *)
Definition session_at_c0 : Jupyterint.KishuForJupyter (Value := Z) :=
  {| Jupyterint._kishu_commit := commits_of ["c1"; "c0"];
     Jupyterint._kishu_branch :=
       {| Branch.branch_table := <["main" := "c1"]> ∅;
          Branch.head_file :=
            Some (Branch.HeadJson (Branch.mkHead None (Some "c0"))) |};
     Jupyterint._kishu_graph_head := "c0";
     Jupyterint._user_ns := <["x" := 1%Z]> ∅;
     Jupyterint._cr_planner_rows := [];
     Jupyterint.incremental_cr := false |}.

Definition no_scan (k : Jupyterint.KishuForJupyter (Value := Z)) (target current : string)
    : result unit := Ok tt.

(** A stand-in for the Python runtime of the plans. Objects are integers;
    a snapshot is the list of its bindings, and does not deserialize when
    it holds a negative number. A cell is a sequence of assignments
    [x=d] of a one-character literal to a one-character name. *)
Definition digits_dumps (ns : gmap string Z) : option (list (string * Z)) :=
  Some (map_to_list ns).

Definition digits_loads (blob : list (string * Z)) : option (gmap string Z) :=
  if forallb (fun kv => Z.leb 0 kv.2) blob then Some (list_to_map blob) else None.

Fixpoint digits_run_cell (code : string) (ns : gmap string Z) : gmap string Z :=
  match code with
  | String x ((String e (String d rest)) as tail) =>
      if Ascii.eqb e "="
      then digits_run_cell rest
             (<[String x EmptyString := (Z.of_nat (nat_of_ascii d) - 48)%Z]> ns)
      else digits_run_cell tail ns
  | _ => ns
  end.

Definition newline : string := String (ascii_of_nat 10) EmptyString.

Definition ns_a1_b2 : gmap string Z := <["a" := 1%Z]> (<["b" := 2%Z]> ∅).

Definition checkpoint_a : Plan.CheckpointPlan :=
  Plan.mkCheckpointPlan "1" [Plan.mkStoreVariable (["a"], 1)].

Definition load_a_rerun_b : list (Plan.RestoreAction Z) :=
  [Plan.LoadVariable 1 ["a"] [(1, "a=1")]; Plan.RerunCell 2 "b=2"].

Definition ns_bad : gmap string Z := <["f" := (-15)%Z]> ∅.

Definition checkpoint_f : Plan.CheckpointPlan :=
  Plan.mkCheckpointPlan "1" [Plan.mkStoreVariable (["f"], 1)].

Definition load_f : list (Plan.RestoreAction Z) :=
  [Plan.LoadVariable 1 ["f"] [(1, "f=!")]].

(** A runtime whose cells can read: [x=y] with a lower-case letter [y]
    gives [x] the value of the name [y], and raises (binding nothing)
    when [y] is not bound; with any other character [y] it assigns the
    literal, as above. *)
Definition names_run_cell (code : string) (ns : gmap string Z) : gmap string Z :=
  match code with
  | String x (String e (String y EmptyString)) =>
      if Ascii.eqb e "=" then
        if Nat.leb 97 (nat_of_ascii y) && Nat.leb (nat_of_ascii y) 122 then
          match ns !! String y EmptyString with
          | Some v => <[String x EmptyString := v]> ns
          | None => ns
          end
        else <[String x EmptyString := (Z.of_nat (nat_of_ascii y) - 48)%Z]> ns
      else ns
  | _ => ns
  end.




End Samples.

(** * Verification *)

Module BranchFacts.
Import Branch Samples.

Lemma contains_branch_lookup (t : gmap string string) (name : string) :
  _contains_branch t name = bool_decide (is_Some (t !! name)).
Proof.
  unfold _contains_branch.
  induction t as [|k c t Hk Hfold IH] using map_first_key_ind.
  - rewrite map_to_list_empty. simpl. rewrite lookup_empty.
    rewrite bool_decide_eq_false_2; [done | by intros [? ?]].
  - rewrite map_to_list_insert_first_key by done.
    rewrite filter_cons. simpl.
    destruct (decide (k = name)) as [->|Hne].
    + rewrite lookup_insert_eq. rewrite bool_decide_eq_true_2 by eauto.
      simpl. destruct (length _) eqn:Hlen; [done|].
      rewrite Hk in IH. rewrite bool_decide_eq_false_2 in IH by (by intros [? ?]).
      destruct n; simpl in *; [done|].
      (* at most one row carries a given primary key *)
      exfalso.
      assert (Hin : exists r, r ∈ filter (fun r : string * string => r.1 = name) (map_to_list t)).
      { destruct (filter _ _) as [|r l]; [done|]. exists r. left. }
      destruct Hin as [[k' c'] Hin]. apply list_elem_of_filter in Hin as [Heq Hin].
      simpl in Heq. subst k'. apply elem_of_map_to_list in Hin. congruence.
    + rewrite lookup_insert_ne by done. exact IH.
Qed.

Lemma contains_branch_true (t : gmap string string) (name c : string) :
  t !! name = Some c -> _contains_branch t name = true.
Proof. intros H. rewrite contains_branch_lookup, bool_decide_eq_true_2; eauto. Qed.

Lemma contains_branch_false (t : gmap string string) (name : string) :
  t !! name = None -> _contains_branch t name = false.
Proof.
  intros H. rewrite contains_branch_lookup, bool_decide_eq_false_2; [done|].
  rewrite H. by intros [? ?].
Qed.

(** [delete_branch] never touches the head file, whatever it returns. *)
Lemma delete_branch_head_file (kb : KishuBranch) (name : string) :
  head_file (delete_branch kb name).2 = head_file kb.
Proof.
  unfold delete_branch. destruct (get_head kb); [|done].
  repeat case_match; done.
Qed.

(** A successful [delete_branch] removes exactly the named row. *)
Lemma delete_branch_ok (kb : KishuBranch) (name : string) (kb' : KishuBranch) :
  delete_branch kb name = (Ok tt, kb') ->
  branch_table kb' = delete name (branch_table kb).
Proof.
  unfold delete_branch. destruct (get_head kb); [|done].
  repeat case_match; intros [= <-]; done.
Qed.

(** C8. [delete_branch b] raises the conflict error when HEAD is attached
    to [b], and otherwise the not-found error when the branch table has no
    row [b]; both leave the table (and the head file) as they were.
    [rename_branch old new] raises not-found when [old] is absent, the
    conflict error when [new] is present, and otherwise moves the row to
    the new name; when HEAD was attached to [old] the head file is
    rewritten with [new] as branch name and the commit id kept. *)
Theorem branch_delete_rename_contract (kb : KishuBranch) :
  (forall old new, branch_table kb !! old = None ->
     rename_branch kb old new = (Raise (BranchNotFoundError old), kb)) /\
  (forall old new, is_Some (branch_table kb !! old) ->
     is_Some (branch_table kb !! new) ->
     rename_branch kb old new =
       (Raise (BranchConflictError "The provided new branch name already exists."), kb)) /\
  (forall head, get_head kb = Ok head ->
     (forall b, branch_name head = Some b ->
        delete_branch kb b =
          (Raise (BranchConflictError "Cannot delete the currently checked-out branch."), kb)) /\
     (forall b, branch_name head <> Some b -> branch_table kb !! b = None ->
        delete_branch kb b = (Raise (BranchNotFoundError b), kb)) /\
     (forall old new c, branch_table kb !! old = Some c ->
        branch_table kb !! new = None ->
        rename_branch kb old new =
          (Ok tt,
           {| branch_table := <[new := c]> (delete old (branch_table kb));
              head_file :=
                if decide (branch_name head = Some old)
                then Some (HeadJson (mkHead (Some new) (commit_id head)))
                else head_file kb |}))).
Proof.
  split; [|split].
  - intros old new Hold. unfold rename_branch.
    by rewrite (contains_branch_false _ _ Hold).
  - intros old new [c Hold] [c' Hnew]. unfold rename_branch.
    by rewrite (contains_branch_true _ _ _ Hold), (contains_branch_true _ _ _ Hnew).
  - intros head Hhead. split; [|split].
    + intros b Hb. unfold delete_branch. rewrite Hhead, Hb.
      by rewrite decide_True.
    + intros b Hb Hnone. unfold delete_branch. rewrite Hhead.
      rewrite decide_False by congruence.
      by rewrite (contains_branch_false _ _ Hnone).
    + intros old new c Hold Hnew. unfold rename_branch.
      rewrite (contains_branch_true _ _ _ Hold), (contains_branch_false _ _ Hnew).
      simpl. unfold sql_rename. rewrite Hold.
      assert (Hhead1 : forall t, get_head (set_table t kb) = Ok head) by (intros; exact Hhead).
      rewrite Hhead1.
      destruct (decide (Some old = branch_name head)) as [Heq|Hne].
      * unfold update_head. rewrite Hhead1. simpl.
        rewrite decide_True by done. reflexivity.
      * rewrite decide_False by congruence. reflexivity.
Qed.

Lemma branch_delete_rename_contract_witness :
  rename_branch kb_two_branches "ghost" "x"
    = (Raise (BranchNotFoundError "ghost"), kb_two_branches) /\
  rename_branch kb_two_branches "dev" "main"
    = (Raise (BranchConflictError "The provided new branch name already exists."),
       kb_two_branches) /\
  delete_branch kb_two_branches "main"
    = (Raise (BranchConflictError "Cannot delete the currently checked-out branch."),
       kb_two_branches) /\
  delete_branch kb_two_branches "ghost"
    = (Raise (BranchNotFoundError "ghost"), kb_two_branches) /\
  rename_branch kb_two_branches "main" "trunk"
    = (Ok tt,
       {| branch_table := <["trunk" := "c1"]> (delete "main" (branch_table kb_two_branches));
          head_file := Some (HeadJson (mkHead (Some "trunk") (Some "c1"))) |}).
Proof.
  destruct (branch_delete_rename_contract kb_two_branches) as (Hnf & Hcf & Hhead).
  destruct (Hhead (mkHead (Some "main") (Some "c1")) eq_refl) as (Hdc & Hdn & Hrn).
  split; [apply Hnf; reflexivity|].
  split; [apply Hcf; eexists; reflexivity|].
  split; [apply Hdc; reflexivity|].
  split; [apply Hdn; [discriminate | reflexivity]|].
  apply (Hrn "main" "trunk" "c1"); reflexivity.
Defined.

(** C10. When the head file is missing or holds text that is not valid
    JSON, [get_head] returns [HeadBranch(branch_name=None, commit_id=None)]
    and raises nothing. *)
Theorem get_head_missing_or_invalid (kb : KishuBranch) :
  head_file kb = None \/ head_file kb = Some InvalidJson ->
  get_head kb = Ok (mkHead None None).
Proof. unfold get_head. intros [-> | ->]; reflexivity. Qed.

Lemma get_head_missing_or_invalid_witness :
  get_head (mkStore ∅ None) = Ok (mkHead None None) /\
  get_head (mkStore (<["main" := "c1"]> ∅) (Some InvalidJson)) = Ok (mkHead None None).
Proof.
  split.
  - apply (get_head_missing_or_invalid (mkStore ∅ None)). left. reflexivity.
  - apply (get_head_missing_or_invalid (mkStore (<["main" := "c1"]> ∅) (Some InvalidJson))).
    right. reflexivity.
Defined.

End BranchFacts.

Module LikeFacts.
Import Like.

Lemma like_percent_cons (q : string) (c : ascii) (s : string) :
  like (String "%" q) (String c s) = like q (String c s) || like (String "%" q) s.
Proof. reflexivity. Qed.

Lemma like_percent_zero (q s : string) :
  like q s = true -> like (String "%" q) s = true.
Proof. intros Hq. destruct s; simpl; rewrite Hq; reflexivity. Qed.

Lemma like_percent_all (s : string) : like "%" s = true.
Proof.
  induction s as [|c s IH]; [reflexivity|].
  rewrite like_percent_cons, IH. apply orb_true_r.
Qed.

Lemma to_lower_eqb_refl (c : ascii) : Ascii.eqb (to_lower c) (to_lower c) = true.
Proof. apply Ascii.eqb_refl. Qed.

(** A text always matches the pattern made of itself followed by [%],
    whatever wildcards it contains. *)
Lemma like_self_prefix (p rest : string) :
  like (p +:+ "%") (p +:+ rest) = true.
Proof.
  induction p as [|c p IH].
  - apply like_percent_all.
  - change (like (String c (p +:+ "%")) (String c (p +:+ rest)) = true).
    destruct (Ascii.eqb_spec c "%") as [->|Hpc].
    + rewrite like_percent_cons.
      rewrite (like_percent_zero _ _ IH). apply orb_true_r.
    + simpl. apply Ascii.eqb_neq in Hpc. rewrite Hpc.
      destruct (Ascii.eqb c "_"); [exact IH|].
      rewrite to_lower_eqb_refl. exact IH.
Qed.

Lemma like_self (p : string) : like (p +:+ "%") p = true.
Proof.
  pose proof (like_self_prefix p "") as Hp.
  assert (Happ : forall s : string, s +:+ "" = s).
  { induction s as [|c s IH]; [done|].
    change (String c (s +:+ EmptyString) = String c s). by rewrite IH. }
  by rewrite Happ in Hp.
Qed.

(** Without wildcards the pattern [p%] is a case-insensitive prefix test. *)
Lemma like_wildcard_free (p s : string) :
  wildcard_free p = true -> like (p +:+ "%") s = iprefix p s.
Proof.
  revert s. induction p as [|c p IH]; intros s Hp; simpl.
  - destruct s; [reflexivity|]. apply like_percent_all.
  - simpl in Hp. apply andb_true_iff in Hp as [Hc Hp].
    unfold is_wildcard in Hc. apply negb_true_iff, orb_false_iff in Hc as [-> ->].
    destruct s as [|d s]; [reflexivity|]. by rewrite IH.
Qed.

Lemma iprefix_no_upper (p s : string) :
  no_upper p = true -> no_upper s = true -> iprefix p s = String.prefix p s.
Proof.
  revert s. induction p as [|c p IH]; intros s Hp Hs.
  - by destruct s.
  - destruct s as [|d s]; [reflexivity|].
    simpl in Hp, Hs.
    apply andb_true_iff in Hp as [Hc Hp]. apply andb_true_iff in Hs as [Hd Hs].
    apply Ascii.eqb_eq in Hc, Hd.
    change (Ascii.eqb (to_lower c) (to_lower d) && iprefix p s
            = if ascii_dec c d then String.prefix p s else false).
    rewrite Hc, Hd, (IH s Hp Hs).
    destruct (ascii_dec c d) as [->|Hne].
    + by rewrite Ascii.eqb_refl.
    + apply Ascii.eqb_neq in Hne. by rewrite Hne.
Qed.

End LikeFacts.

Module CommitFacts.
Import Like Commit Jupyterint LikeFacts.

Section WithDill.
Context `{Dill}.

Lemma elem_of_keys_like (kc : KishuCommit) (p id : string) :
  id ∈ keys_like kc p <->
  is_Some (commit_entry_table kc !! id) /\ like (p +:+ "%") id = true.
Proof.
  unfold keys_like. rewrite list_elem_of_filter, list_elem_of_fmap. split.
  - intros [Hlike [[k v] [-> Hin]]]. apply elem_of_map_to_list in Hin. eauto.
  - intros [[v Hv] Hlike]. split; [done|].
    exists (id, v). split; [done|]. by apply elem_of_map_to_list.
Qed.

Lemma NoDup_keys_like (kc : KishuCommit) (p : string) : NoDup (keys_like kc p).
Proof. apply NoDup_filter, NoDup_fst_map_to_list. Qed.

Lemma keys_like_self (kc : KishuCommit) (p : string) :
  is_Some (commit_entry_table kc !! p) -> p ∈ keys_like kc p.
Proof. intros Hp. apply elem_of_keys_like. split; [done | apply like_self]. Qed.

Lemma disambiguate_exact (kc : KishuCommit) (p : string) :
  is_Some (commit_entry_table kc !! p) -> disambiguate_commit kc p = Ok p.
Proof.
  intros Hp. apply keys_like_self in Hp. unfold disambiguate_commit.
  destruct (keys_like kc p) as [|x l] eqn:Hk; [by apply not_elem_of_nil in Hp|].
  simpl. by rewrite bool_decide_eq_true_2.
Qed.

Lemma disambiguate_single (kc : KishuCommit) (p id : string) :
  keys_like kc p = [id] -> disambiguate_commit kc p = Ok id.
Proof.
  intros Hk. unfold disambiguate_commit. rewrite Hk. simpl.
  destruct (bool_decide_reflect (p ∈ [id])) as [Hin|Hin]; [|done].
  apply list_elem_of_singleton in Hin. by subst.
Qed.

(** C5, as amended. [keys_like p] returns, each once, the stored commit
    ids that match the [LIKE] pattern [p%]; when [p] has no [%] and no
    [_], and neither [p] nor the stored ids have upper-case ASCII
    letters, these are the stored ids with prefix [p].
    [disambiguate_commit p] returns [p] when [p] is stored, whatever else
    matches; raises the not-found error when nothing matches; raises the
    ambiguity error when several ids match and [p] is none of them; and
    returns the only match otherwise. *)
Theorem keys_like_disambiguate_contract (kc : KishuCommit) (p : string) :
  NoDup (keys_like kc p) /\
  (forall id, id ∈ keys_like kc p <->
     is_Some (commit_entry_table kc !! id) /\ like (p +:+ "%") id = true) /\
  (wildcard_free p = true -> no_upper p = true ->
   (forall id, is_Some (commit_entry_table kc !! id) -> no_upper id = true) ->
   forall id, id ∈ keys_like kc p <->
     is_Some (commit_entry_table kc !! id) /\ String.prefix p id = true) /\
  (is_Some (commit_entry_table kc !! p) -> disambiguate_commit kc p = Ok p) /\
  (keys_like kc p = [] ->
   disambiguate_commit kc p = Raise (ValueError (NoCommitWithID p))) /\
  (p ∉ keys_like kc p -> 1 < length (keys_like kc p) ->
   disambiguate_commit kc p =
     Raise (ValueError (AmbiguousCommitID p (keys_like kc p)))) /\
  (forall id, keys_like kc p = [id] -> disambiguate_commit kc p = Ok id).
Proof.
  split; [apply NoDup_keys_like|].
  split; [apply elem_of_keys_like|].
  split.
  { intros Hw Hp Hids id. rewrite elem_of_keys_like. split.
    - intros [Hid Hl]. split; [done|].
      rewrite like_wildcard_free in Hl by done.
      by rewrite iprefix_no_upper in Hl by auto.
    - intros [Hid Hl]. split; [done|].
      rewrite like_wildcard_free by done.
      by rewrite iprefix_no_upper by auto. }
  split; [apply disambiguate_exact|].
  split.
  { intros Hk. unfold disambiguate_commit. by rewrite Hk. }
  split; [|apply disambiguate_single].
  intros Hnin Hlen. unfold disambiguate_commit.
  destruct (keys_like kc p) as [|x l] eqn:Hk; [simpl in Hlen; lia|].
  simpl length. rewrite bool_decide_eq_false_2 by done.
  destruct l; [simpl in Hlen; lia|]. reflexivity.
Qed.

(** C9, as amended. When the commit id of the entry is in neither table,
    [store_commit] adds one row to [commit_entry], holding the pickled
    entry, and one row to [session_state], holding the pickled
    [active_vses_string], both under that id, and returns
    [sys.getsizeof] of the pickled [active_vses_string]. *)
Theorem store_commit_fresh (kc : KishuCommit) (e : CommitEntry) :
  commit_entry_table kc !! commit_id e = None ->
  session_state_table kc !! commit_id e = None ->
  exists kc',
    store_commit kc e =
      (Ok (getsizeof (dumps_state (active_vses_string e))), kc') /\
    commit_entry_table kc' = <[commit_id e := dumps_entry e]> (commit_entry_table kc) /\
    session_state_table kc' =
      <[commit_id e := dumps_state (active_vses_string e)]> (session_state_table kc) /\
    size (commit_entry_table kc') = S (size (commit_entry_table kc)) /\
    size (session_state_table kc') = S (size (session_state_table kc)).
Proof.
  intros Hc Hs. unfold store_commit. rewrite Hc. simpl. rewrite Hs.
  eexists. split; [reflexivity|]. simpl.
  split; [done|]. split; [done|].
  split; by apply map_size_insert_None.
Qed.

End WithDill.

Import Samples.

Lemma keys_like_disambiguate_contract_witness :
  (forall id, id ∈ keys_like (commits_of ["ab12"; "ab34"; "cd56"]) "ab" <->
     is_Some (commit_entry_table (commits_of ["ab12"; "ab34"; "cd56"]) !! id) /\
     String.prefix "ab" id = true) /\
  disambiguate_commit (commits_of ["ab"; "ab34"]) "ab" = Ok "ab" /\
  disambiguate_commit (commits_of ["ab12"; "ab34"]) "ef"
    = Raise (ValueError (NoCommitWithID "ef")) /\
  disambiguate_commit (commits_of ["ab12"; "ab34"; "cd56"]) "ab"
    = Raise (ValueError (AmbiguousCommitID "ab"
         (keys_like (commits_of ["ab12"; "ab34"; "cd56"]) "ab"))) /\
  disambiguate_commit (commits_of ["ab12"; "ab34"; "cd56"]) "cd" = Ok "cd56".
Proof.
  destruct (keys_like_disambiguate_contract (commits_of ["ab12"; "ab34"; "cd56"]) "ab")
    as (_ & _ & Hprefix & _ & _ & Hambiguous & _).
  destruct (keys_like_disambiguate_contract (commits_of ["ab"; "ab34"]) "ab")
    as (_ & _ & _ & Hexact & _).
  destruct (keys_like_disambiguate_contract (commits_of ["ab12"; "ab34"]) "ef")
    as (_ & _ & _ & _ & Hnone & _).
  destruct (keys_like_disambiguate_contract (commits_of ["ab12"; "ab34"; "cd56"]) "cd")
    as (_ & _ & _ & _ & _ & _ & Hsingle).
  split.
  { apply Hprefix; [reflexivity | reflexivity |].
    intros id [v Hv]. apply elem_of_map_to_list in Hv.
    remember (map_to_list _) as rows eqn:Hrows. vm_compute in Hrows. subst rows.
    set_unfold in Hv.
    destruct Hv as [Hv|[Hv|[Hv|[]]]]; injection Hv as -> _; reflexivity. }
  split.
  { apply Hexact. eexists. vm_compute. reflexivity. }
  split.
  { apply Hnone. vm_compute. reflexivity. }
  split.
  { apply Hambiguous.
    - apply (bool_decide_unpack _). vm_compute. reflexivity.
    - vm_compute. lia. }
  apply Hsingle. vm_compute. reflexivity.
Defined.

(** C5 as first stated fails: [LIKE] folds the case of ASCII letters and
    reads [_] and [%] in the argument as wildcards, so ids are returned of
    which the argument is no prefix. *)
Lemma keys_like_not_prefix :
  keys_like (commits_of ["ab12"]) "AB" = ["ab12"] /\
  String.prefix "AB" "ab12" = false /\
  keys_like (commits_of ["0:1"]) "_:" = ["0:1"] /\
  String.prefix "_:" "0:1" = false.
Proof. repeat split; vm_compute; reflexivity. Qed.

Lemma store_commit_fresh_witness :
  exists kc',
    store_commit empty_commits (entry_of "0:1" "[1] a = 1" (Some "vs")) = (Ok 35, kc') /\
    commit_entry_table kc' = <["0:1" := "0:1:[1] a = 1"]> ∅ /\
    session_state_table kc' = <["0:1" := "vs"]> ∅ /\
    size (commit_entry_table kc') = 1 /\
    size (session_state_table kc') = 1.
Proof.
  apply (store_commit_fresh empty_commits (entry_of "0:1" "[1] a = 1" (Some "vs")));
    vm_compute; reflexivity.
Defined.

(** C9 as first stated fails on an entry whose commit id is stored already
    (in [counter] mode a manual commit reuses the id of the cell commit
    before it): the insert raises and no row is added. *)
Lemma store_commit_duplicate :
  let kc := (store_commit empty_commits (entry_of "0:1" "[1] a = 1" (Some "vs"))).2 in
  store_commit kc (entry_of "0:1" "Manual commit after 1 executions." (Some "vs"))
    = (Raise (IntegrityError "commit_entry"), kc).
Proof. vm_compute. reflexivity. Qed.

End CommitFacts.

Module JupyterintFacts.
Import Commit Jupyterint.

Section WithDill.
Context `{Dill} {Value : Type}.
Variable incremental_scan :
  KishuForJupyter (Value := Value) -> string -> string -> result unit.

Lemma drop_keys_lookup (target_ns : gmap string Value) (keys : list string)
    (ns : gmap string Value) (key : string) :
  foldl (fun ns key => if decide (key ∈ dom target_ns) then ns else delete key ns)
        ns keys !! key =
  if decide (key ∈ keys /\ key ∉ dom target_ns) then None else ns !! key.
Proof.
  revert ns. induction keys as [|k0 keys IH]; intros ns.
  - simpl foldl. destruct (decide (key ∈ [] /\ key ∉ dom target_ns)) as [[Hin _]|_];
      [by apply not_elem_of_nil in Hin | done].
  - simpl foldl. rewrite IH.
    destruct (decide (key ∈ keys /\ key ∉ dom target_ns)) as [[Hin Hout]|Hno].
    + destruct (decide (key ∈ k0 :: keys /\ key ∉ dom target_ns)) as [_|Hno];
        [done|]. exfalso. apply Hno. split; [by right | done].
    + destruct (decide (k0 ∈ dom target_ns)) as [Hk0|Hk0].
      * destruct (decide (key ∈ k0 :: keys /\ key ∉ dom target_ns)) as [[Hin Hout]|_];
          [|done].
        apply elem_of_cons in Hin as [->|Hin]; [done|]. exfalso. by apply Hno.
      * destruct (decide (key = k0)) as [->|Hne].
        -- rewrite lookup_delete_eq.
           destruct (decide (k0 ∈ k0 :: keys /\ k0 ∉ dom target_ns)) as [_|Hno'];
             [done|]. exfalso. apply Hno'. split; [by left | done].
        -- rewrite lookup_delete_ne by done.
           destruct (decide (key ∈ k0 :: keys /\ key ∉ dom target_ns)) as [[Hin Hout]|_];
             [|done].
           apply elem_of_cons in Hin as [->|Hin]; [done|]. exfalso. by apply Hno.
Qed.

(** X24. [_checkout_namespace] replaces the names the namespace lists:
    a key of the target gets the target's value; any other key is
    deleted when [keyset] lists it and kept when it does not, so the
    names listed afterwards are those the target lists; a user namespace
    without unlisted names ends equal to the target; and the Kishu
    instrument [_kishu], which is registered as a Kishu variable, stays
    in the user namespace when the target does not have it. *)
Theorem checkout_namespace_replaces_listed (unlisted : gset string)
    (user_ns target_ns : gmap string Value) :
  (forall key,
     _checkout_namespace unlisted user_ns target_ns !! key =
     match target_ns !! key with
     | Some v => Some v
     | None => if decide (key ∈ unlisted) then user_ns !! key else None
     end) /\
  Namespace.keyset unlisted (_checkout_namespace unlisted user_ns target_ns)
    = Namespace.keyset unlisted target_ns /\
  ((forall key, key ∈ unlisted -> user_ns !! key = None) ->
     _checkout_namespace unlisted user_ns target_ns = target_ns) /\
  (KISHU_VARS ⊆ unlisted -> target_ns !! KISHU_INSTRUMENT = None ->
     _checkout_namespace unlisted user_ns target_ns !! KISHU_INSTRUMENT
       = user_ns !! KISHU_INSTRUMENT).
Proof.
  assert (Hlookup : forall key,
     _checkout_namespace unlisted user_ns target_ns !! key =
     match target_ns !! key with
     | Some v => Some v
     | None => if decide (key ∈ unlisted) then user_ns !! key else None
     end).
  { intros key. unfold _checkout_namespace, Namespace.update, Namespace.keyset.
    rewrite drop_keys_lookup.
    destruct (target_ns !! key) as [v|] eqn:Htarget.
    - rewrite decide_False.
      + by apply lookup_union_Some_l.
      + intros [_ Hout]. apply Hout, elem_of_dom. eauto.
    - assert (Hout : key ∉ dom target_ns) by (by apply not_elem_of_dom).
      rewrite (lookup_union_r _ _ _ Htarget).
      destruct (decide (key ∈ unlisted)) as [Hun|Hlisted].
      + rewrite decide_False; [done|].
        intros [Hin _]. apply elem_of_elements, elem_of_difference in Hin. tauto.
      + destruct (user_ns !! key) as [v|] eqn:Huser; [|by case_decide].
        rewrite decide_True; [done|]. split; [|done].
        apply elem_of_elements, elem_of_difference. split; [|done].
        apply elem_of_dom. exists v. by rewrite (lookup_union_r _ _ _ Htarget). }
  split; [exact Hlookup|]. split; [|split].
  - unfold Namespace.keyset. apply set_eq. intros key.
    rewrite !elem_of_difference, !elem_of_dom, Hlookup.
    destruct (target_ns !! key) as [v|]; [done|].
    destruct (decide (key ∈ unlisted)); [tauto|].
    split; intros [[v Hv] _]; done.
  - intros Hnone. apply map_eq. intros key. rewrite Hlookup.
    destruct (target_ns !! key) as [v|]; [done|].
    destruct (decide (key ∈ unlisted)); [by apply Hnone|done].
  - intros Hkishu Htarget. rewrite Hlookup, Htarget.
    rewrite decide_True; [done|]. apply Hkishu. unfold KISHU_VARS. set_solver.
Qed.

(** Whatever it returns, [checkout] leaves the user namespace, the head
    file, the branch table and the commit tables as they were: it only
    adds rows to the planner's log. *)
Lemma checkout_only_logs (k : KishuForJupyter) (ref : string) (skip : bool) :
  let k' := (checkout incremental_scan k ref skip).2 in
  _user_ns k' = _user_ns k /\
  _kishu_branch k' = _kishu_branch k /\
  _kishu_commit k' = _kishu_commit k /\
  _kishu_graph_head k' = _kishu_graph_head k.
Proof.
  unfold checkout.
  destruct (Branch.get_branch _ _) as [|row [|row' rows]];
    (destruct (disambiguate_commit _ _) as [id|e]; [|done]);
    simpl; (destruct (get_session_state _ _); [|done]);
    (destruct (if incremental_cr k then _ else _); [|done]);
    done.
Qed.

End WithDill.

Lemma checkout_namespace_replaces_listed_witness :
  _checkout_namespace KISHU_VARS
    (<["x" := 1%Z]> (<["_kishu" := 0%Z]> ∅)) (<["y" := 2%Z]> ∅)
  = <["y" := 2%Z]> (<["_kishu" := 0%Z]> ∅) /\
  _checkout_namespace KISHU_VARS (<["x" := 1%Z]> ∅) (<["y" := 2%Z]> ∅)
  = <["y" := 2%Z]> ∅.
Proof.
  split.
  - destruct (checkout_namespace_replaces_listed KISHU_VARS
                (<["x" := 1%Z]> (<["_kishu" := 0%Z]> ∅)) (<["y" := 2%Z]> ∅))
      as [Hlookup _].
    apply map_eq. intros key. rewrite Hlookup.
    destruct (decide (key = "y")) as [->|Hy]; [reflexivity|].
    rewrite !(lookup_insert_ne _ "y") by done. rewrite lookup_empty.
    destruct (decide (key = "_kishu")) as [->|Hk]; [reflexivity|].
    rewrite (lookup_insert_ne _ "_kishu") by done. rewrite lookup_empty.
    case_decide as Hin; [|done].
    unfold KISHU_VARS, KISHU_INSTRUMENT in Hin. set_unfold in Hin.
    destruct Hin as [[-> | ->] | ->]; done.
  - destruct (checkout_namespace_replaces_listed KISHU_VARS
                (<["x" := 1%Z]> ∅) (<["y" := 2%Z]> ∅))
      as [_ [_ [Heq _]]].
    apply Heq. intros key Hin.
    unfold KISHU_VARS, KISHU_INSTRUMENT in Hin. set_unfold in Hin.
    destruct Hin as [[-> | ->] | ->]; done.
Defined.

Import Samples.

(** C1 fails on the code. Checking out branch [main] (at commit [c1]) from
    HEAD detached at [c0] reports success, while the head file still says
    detached at [c0] and the user namespace still holds what it held: the
    restore plan is not run and HEAD is not written. *)
Theorem checkout_branch_leaves_head_and_namespace :
  checkout no_scan session_at_c0 "main" false
    = (Ok "Checkout main (c1).",
       write_row (write_row session_at_c0 "pre-checkout-time1") "pre-checkout-time") /\
  Branch.get_head (_kishu_branch (checkout no_scan session_at_c0 "main" false).2)
    = Ok (Branch.mkHead None (Some "c0")) /\
  _user_ns (checkout no_scan session_at_c0 "main" false).2 = <["x" := 1%Z]> ∅.
Proof. repeat split; vm_compute; reflexivity. Qed.

End JupyterintFacts.

Module CommitGraphFacts.
Import CommitGraph.

Lemma wf_new : wf new_in_memory.
Proof.
  split.
  - intros i n Hn. simpl in Hn. by rewrite lookup_nil in Hn.
  - intros c p Hc. simpl in Hc. by rewrite lookup_empty in Hc.
  - intros p Hp. discriminate.
Qed.

Lemma wf_nodes_snoc (store : list CommitNode) (n : CommitNode) :
  wf_nodes store ->
  position n = length store ->
  match parent_position n with
  | Some p => p < length store /\
      exists m, store !! p = Some m /\ parent_id (info n) = commit_id (info m)
  | None => parent_id (info n) = ""
  end ->
  wf_nodes (store ++ [n]).
Proof.
  intros Hwf Hpos Hpar i n' Hi.
  destruct (decide (i < length store)) as [Hlt|Hge].
  - rewrite lookup_app_l in Hi by done.
    destruct (Hwf i n' Hi) as [Hp Hq]. split; [done|].
    destruct (parent_position n') as [p|]; [|done].
    destruct Hq as [Hpi (m & Hm & Hid)]. split; [done|].
    exists m. split; [|done]. rewrite lookup_app_l; [done|]. lia.
  - apply lookup_lt_Some in Hi as Hlen. rewrite length_app in Hlen. simpl in Hlen.
    assert (i = length store) as -> by lia.
    rewrite lookup_app_r, Nat.sub_diag in Hi by lia. injection Hi as <-.
    split; [done|].
    destruct (parent_position n) as [p|]; [|done].
    destruct Hpar as [Hpi (m & Hm & Hid)]. split; [done|].
    exists m. split; [|done]. by rewrite lookup_app_l.
Qed.

Lemma wf_append (g : KishuCommitGraph) (i : CommitInfo) (parent : option nat) :
  wf g ->
  match parent with
  | Some p => exists m, nodes g !! p = Some m /\ parent_id i = commit_id (info m)
  | None => parent_id i = ""
  end ->
  wf (append_node g i parent).
Proof.
  intros [Hs Hi Hh] Hpar. split; simpl.
  - apply wf_nodes_snoc; [done | done |]. simpl.
    destruct parent as [p|]; [|done].
    destruct Hpar as (m & Hm & Hid). split; [by apply lookup_lt_Some in Hm|]. eauto.
  - intros c p Hc. destruct (decide (commit_id i = c)) as [<-|Hne].
    + rewrite lookup_insert_eq in Hc. injection Hc as <-.
      exists (mkNode i (length (nodes g)) parent). split; [|done].
      by rewrite lookup_app_r, Nat.sub_diag by lia.
    + rewrite lookup_insert_ne in Hc by done.
      destruct (Hi c p Hc) as (n & Hn & Hid). exists n. split; [|done].
      rewrite lookup_app_l; [done|]. by apply lookup_lt_Some in Hn.
  - intros p [= <-]. rewrite length_app. simpl. lia.
Qed.

Lemma wf_step (g : KishuCommitGraph) (c : string) : wf g -> wf (step g c).
Proof.
  intros Hwf. apply wf_append; [done|]. unfold head.
  destruct (head_position g) as [p|] eqn:Hp; [|done].
  apply (wf_head g Hwf) in Hp. apply lookup_lt_is_Some in Hp as [m Hm].
  exists m. by rewrite Hm.
Qed.

Lemma wf_jump (g : KishuCommitGraph) (c : string) : wf g -> wf (jump g c).
Proof.
  intros Hwf. unfold jump. destruct (index g !! c) as [p|] eqn:Hc.
  - destruct Hwf as [Hs Hi Hh]. split; simpl; [done | done |].
    intros q [= <-]. destruct (Hi c p Hc) as (n & Hn & _).
    by apply lookup_lt_Some in Hn.
  - by apply wf_append.
Qed.

Lemma wf_run (ops : list operation) : wf (run ops).
Proof.
  unfold run. generalize wf_new. generalize new_in_memory.
  induction ops as [|o ops IH]; intros g Hg; [done|].
  simpl. apply IH. destruct o; [by apply wf_step | by apply wf_jump].
Qed.

Lemma walk_None (fuel : nat) (store : list CommitNode) : walk fuel store None = [].
Proof. by destruct fuel. Qed.

(** Appending records does not change the walk from an old position. *)
Lemma walk_app (store extra : list CommitNode) :
  wf_nodes store ->
  forall fuel p, p < length store ->
    walk fuel (store ++ extra) (Some p) = walk fuel store (Some p).
Proof.
  intros Hwf. induction fuel as [|fuel IH]; intros p Hp; [done|].
  simpl. rewrite lookup_app_l by done.
  destruct (store !! p) as [n|] eqn:Hn; [|done]. f_equal.
  destruct (Hwf p n Hn) as [_ Hpar].
  destruct (parent_position n) as [q|]; [|by rewrite !walk_None].
  apply IH. lia.
Qed.

(** The walk from position [p] visits at most [p + 1] records: more fuel
    changes nothing. *)
Lemma walk_fuel (store : list CommitNode) :
  wf_nodes store ->
  forall fuel fuel' p, p < fuel -> p < fuel' ->
    walk fuel store (Some p) = walk fuel' store (Some p).
Proof.
  intros Hwf. induction fuel as [|fuel IH]; intros fuel' p H1 H2; [lia|].
  destruct fuel' as [|fuel']; [lia|]. simpl.
  destruct (store !! p) as [n|] eqn:Hn; [|done]. f_equal.
  destruct (Hwf p n Hn) as [_ Hpar].
  destruct (parent_position n) as [q|]; [|by rewrite !walk_None].
  apply IH; lia.
Qed.

(** With enough fuel the walk ends at a root, a node with empty parent. *)
Lemma walk_root (store : list CommitNode) :
  wf_nodes store ->
  forall fuel p n, p < fuel -> store !! p = Some n ->
    exists older root,
      walk fuel store (Some p) = older ++ [root] /\ parent_id root = "".
Proof.
  intros Hwf. induction fuel as [|fuel IH]; intros p n Hp Hn; [lia|].
  simpl. rewrite Hn. destruct (Hwf p n Hn) as [_ Hpar].
  destruct (parent_position n) as [q|].
  - destruct Hpar as [Hq (m & Hm & _)].
    destruct (IH q m ltac:(lia) Hm) as (older & root & -> & Hroot).
    exists (info n :: older), root. done.
  - rewrite walk_None. exists [], (info n). done.
Qed.

Lemma head_append (g : KishuCommitGraph) (i : CommitInfo) (parent : option nat) :
  head (append_node g i parent) = commit_id i.
Proof.
  unfold head, append_node. simpl.
  by rewrite lookup_app_r, Nat.sub_diag by lia.
Qed.

Lemma list_history_append (g : KishuCommitGraph) (i : CommitInfo)
    (parent : option nat) :
  wf g ->
  (forall p, parent = Some p -> p < length (nodes g)) ->
  list_history (append_node g i parent) None
    = i :: walk (length (nodes g)) (nodes g) parent /\
  list_history (append_node g i parent) (Some (commit_id i))
    = i :: walk (length (nodes g)) (nodes g) parent.
Proof.
  intros Hwf Hpar. unfold list_history, append_node. simpl.
  rewrite lookup_insert_eq, length_app, Nat.add_1_r. simpl.
  rewrite lookup_app_r, Nat.sub_diag by lia. simpl.
  destruct parent as [p|]; [|by rewrite !walk_None].
  rewrite walk_app; [done | apply Hwf | by apply Hpar].
Qed.

Lemma list_history_append_old (g : KishuCommitGraph) (i : CommitInfo)
    (parent : option nat) (c : string) :
  wf g -> c <> commit_id i ->
  list_history (append_node g i parent) (Some c) = list_history g (Some c).
Proof.
  intros Hwf Hne. unfold list_history, append_node. simpl.
  rewrite lookup_insert_ne by done.
  destruct (index g !! c) as [p|] eqn:Hc; [|by rewrite !walk_None].
  destruct (wf_index g Hwf c p Hc) as (n & Hn & _). apply lookup_lt_Some in Hn.
  rewrite walk_app by (done || apply Hwf).
  apply walk_fuel; [apply Hwf | rewrite length_app; lia | done].
Qed.

Lemma list_history_steps (cs : list string) (g : KishuCommitGraph) :
  wf g ->
  list_history (foldl step g cs) None = chain (head g) cs ++ list_history g None.
Proof.
  revert g. induction cs as [|c cs IH]; intros g Hwf; [done|].
  simpl. rewrite IH by (by apply wf_step).
  assert (Hhead : head (step g c) = c) by apply head_append.
  assert (Hhist : list_history (step g c) None = mkInfo c (head g) :: list_history g None).
  { destruct (list_history_append g (mkInfo c (head g)) (head_position g) Hwf) as [Hh _].
    - intros p Hp. by apply (wf_head g Hwf).
    - exact Hh. }
  rewrite Hhead, Hhist. by rewrite <- app_assoc.
Qed.

Lemma chain_length (parent : string) (cs : list string) :
  length (chain parent cs) = length cs.
Proof.
  revert parent. induction cs as [|c cs IH]; intros parent; [done|].
  simpl. rewrite length_app, IH. simpl. lia.
Qed.

(** Read oldest first, the [i]-th entry of [chain parent cs] is the [i]-th
    commit with the one before it as parent ([parent] for the first). *)
Lemma chain_lookup (parent : string) (cs : list string) (i : nat) (c : string) :
  cs !! i = Some c ->
  reverse (chain parent cs) !! i =
    Some (mkInfo c (match i with O => parent | S j => default "" (cs !! j) end)).
Proof.
  revert parent i. induction cs as [|c0 cs IH]; intros parent i Hi; [done|].
  simpl. rewrite reverse_app. simpl.
  destruct i as [|j]; [by injection Hi as ->|].
  simpl in Hi. simpl. rewrite (IH c0 j Hi). by destruct j.
Qed.

(** C4. Stepping through [c_1 .. c_n] from the empty graph,
    [list_history()] is the [c_i] newest first, each with [c_(i-1)] as
    parent and [c_1] with the empty parent. In any graph built by steps
    and jumps: after a jump to a known commit [x], a step to [y] gives
    [y] the parent [x], and the history of [y] is [y] followed by the
    history of [x], which ends in a node with empty parent; a jump to an
    unknown id appends one node with empty parent, whose history is that
    node alone, and the history of every commit that was known stays as
    it was. *)
Theorem commit_graph_history_contract :
  (forall cs,
     list_history (foldl step new_in_memory cs) None = chain "" cs /\
     forall i c, cs !! i = Some c ->
       reverse (list_history (foldl step new_in_memory cs) None) !! i =
         Some (mkInfo c (match i with O => "" | S j => default "" (cs !! j) end))) /\
  (forall ops x y, is_Some (index (run ops) !! x) ->
     exists older root,
       list_history (step (jump (run ops) x) y) (Some y)
         = mkInfo y x :: older ++ [root] /\
       list_history (run ops) (Some x) = older ++ [root] /\
       parent_id root = "") /\
  (forall ops z, index (run ops) !! z = None ->
     nodes (jump (run ops) z)
       = nodes (run ops) ++ [mkNode (mkInfo z "") (length (nodes (run ops))) None] /\
     list_history (jump (run ops) z) None = [mkInfo z ""] /\
     list_history (jump (run ops) z) (Some z) = [mkInfo z ""] /\
     forall c, is_Some (index (run ops) !! c) ->
       list_history (jump (run ops) z) (Some c) = list_history (run ops) (Some c)).
Proof.
  split; [|split].
  - intros cs.
    assert (Hall : list_history (foldl step new_in_memory cs) None = chain "" cs).
    { rewrite list_history_steps by apply wf_new. apply app_nil_r. }
    split; [done|]. intros i c Hi. rewrite Hall. by apply chain_lookup.
  - intros ops x y [px Hx]. pose proof (wf_run ops) as Hwf.
    destruct (wf_index _ Hwf x px Hx) as (n & Hn & Hid).
    assert (Hlt : px < length (nodes (run ops))) by (by apply lookup_lt_Some in Hn).
    destruct (walk_root _ (wf_store _ Hwf) (length (nodes (run ops))) px n Hlt Hn)
      as (older & root & Hwalk & Hroot).
    exists older, root. split; [|split; [|done]].
    + assert (Hjump : jump (run ops) x
                = mkGraph (nodes (run ops)) (index (run ops)) (Some px))
        by (unfold jump; by rewrite Hx).
      assert (Hwfj : wf (jump (run ops) x)) by (by apply wf_jump).
      unfold step. rewrite Hjump in *.
      assert (Hhead : head (mkGraph (nodes (run ops)) (index (run ops)) (Some px)) = x)
        by (unfold head; simpl; by rewrite Hn).
      rewrite Hhead.
      destruct (list_history_append _ (mkInfo y x) (Some px) Hwfj) as [_ Hy].
      { intros p [= <-]. done. }
      simpl in Hy. simpl head_position. rewrite Hy. by rewrite Hwalk.
    + unfold list_history. by rewrite Hx.
  - intros ops z Hz. pose proof (wf_run ops) as Hwf.
    assert (Hjump : jump (run ops) z = append_node (run ops) (mkInfo z "") None)
      by (unfold jump; by rewrite Hz).
    rewrite Hjump.
    destruct (list_history_append (run ops) (mkInfo z "") None Hwf) as [Hhead Hself];
      [done|].
    rewrite walk_None in Hhead, Hself.
    split; [done|]. split; [done|]. split; [done|].
    intros c [p Hc]. apply list_history_append_old; [done|].
    simpl. intros ->. congruence.
Qed.

Lemma commit_graph_history_contract_witness :
  list_history (foldl step new_in_memory ["1"; "2"; "3"]) None
    = [mkInfo "3" "2"; mkInfo "2" "1"; mkInfo "1" ""] /\
  list_history (step (jump (run [Step "1"; Step "2"; Step "3"]) "1") "2b") (Some "2b")
    = [mkInfo "2b" "1"; mkInfo "1" ""] /\
  list_history (jump (run [Step "1"; Step "2"; Step "3"]) "A") None = [mkInfo "A" ""] /\
  list_history (jump (run [Step "1"; Step "2"; Step "3"]) "A") (Some "3")
    = [mkInfo "3" "2"; mkInfo "2" "1"; mkInfo "1" ""].
Proof.
  destruct commit_graph_history_contract as (Hsteps & Hjump & Hroot).
  split; [apply (Hsteps ["1"; "2"; "3"])|].
  split.
  { destruct (Hjump [Step "1"; Step "2"; Step "3"] "1" "2b") as (older & root & Hy & Hx & _);
      [eexists; vm_compute; reflexivity|].
    rewrite Hy, <- Hx. vm_compute. reflexivity. }
  destruct (Hroot [Step "1"; Step "2"; Step "3"] "A") as (_ & Hhead & _ & Hold);
    [vm_compute; reflexivity|].
  split; [exact Hhead|].
  rewrite (Hold "3"); [vm_compute; reflexivity | eexists; vm_compute; reflexivity].
Defined.

(** The run of [test_common], checked by evaluation. *)
Example test_common_run :
  let g1 := run [Step "1"; Step "2"; Step "3"; Step "4"; Step "5"; Jump "3"] in
  let g2 := foldl step g1 ["3_1"; "3_2"; "3_3"; "3_4"] in
  let g3 := foldl step (jump g2 "A") ["A_A"; "A_B"] in
  list_history g1 None = [mkInfo "3" "2"; mkInfo "2" "1"; mkInfo "1" ""] /\
  list_history g1 (Some "5")
    = [mkInfo "5" "4"; mkInfo "4" "3"; mkInfo "3" "2"; mkInfo "2" "1"; mkInfo "1" ""] /\
  list_history g2 None
    = [mkInfo "3_4" "3_3"; mkInfo "3_3" "3_2"; mkInfo "3_2" "3_1"; mkInfo "3_1" "3";
       mkInfo "3" "2"; mkInfo "2" "1"; mkInfo "1" ""] /\
  list_history (jump g2 "A") None = [mkInfo "A" ""] /\
  list_history g3 None = [mkInfo "A_B" "A_A"; mkInfo "A_A" "A"; mkInfo "A" ""] /\
  list_history g3 (Some "5")
    = [mkInfo "5" "4"; mkInfo "4" "3"; mkInfo "3" "2"; mkInfo "2" "1"; mkInfo "1" ""].
Proof. repeat split; vm_compute; reflexivity. Qed.

End CommitGraphFacts.

Module CommitNodeFacts.
Import CommitNode.

Lemma to_N_byte_of_N (n : N) : (n < 256)%N -> Byte.to_N (byte_of_N n) = n.
Proof.
  intros Hn. unfold byte_of_N. destruct (Byte.of_N n) as [b|] eqn:Hb.
  - by apply Byte.to_of_N.
  - apply Byte.of_N_None_iff in Hb. lia.
Qed.

Lemma decode_encode_varint_fuel (fuel : nat) (n : N) (rest : list byte) :
  (n < 128 ^ N.of_nat (S fuel))%N ->
  decode_varint (encode_varint_fuel fuel n ++ rest) = Some (n, rest).
Proof.
  revert n. induction fuel as [|fuel IH]; intros n Hn.
  - assert (Hlt : (n < 128)%N) by exact Hn.
    cbn [encode_varint_fuel app decode_varint].
    rewrite N.mod_small by done. rewrite to_N_byte_of_N by lia.
    apply N.ltb_lt in Hlt. by rewrite Hlt.
  - assert (Hdiv : (n / 128 < 128 ^ N.of_nat (S fuel))%N).
    { apply N.Div0.div_lt_upper_bound.
      rewrite <- N.pow_succ_r'. by rewrite <- Nat2N.inj_succ. }
    specialize (IH _ Hdiv). clear Hn Hdiv.
    cbn [encode_varint_fuel]. destruct (N.ltb_spec n 128) as [Hlt|Hge].
    + cbn [app decode_varint]. rewrite to_N_byte_of_N by lia.
      apply N.ltb_lt in Hlt. by rewrite Hlt.
    + assert (Hmod : (n mod 128 < 128)%N) by (apply N.mod_lt; lia).
      pose proof (N.div_mod n 128 ltac:(lia)) as Hdm.
      revert Hmod Hdm IH.
      generalize (n mod 128)%N as r, (n / 128)%N as q. intros r q Hmod Hdm IH.
      cbn [app decode_varint]. rewrite to_N_byte_of_N by lia.
      destruct (N.ltb_spec (128 + r) 128) as [?|_]; [lia|].
      rewrite IH. f_equal. f_equal. lia.
Qed.

Lemma decode_encode_varint (n : N) (rest : list byte) :
  decode_varint (encode_varint n ++ rest) = Some (n, rest).
Proof.
  apply decode_encode_varint_fuel.
  rewrite Nat2N.inj_succ, N2Nat.id.
  eapply N.lt_le_trans; [apply N.size_gt|].
  etrans; [apply (N.pow_le_mono_l 2 128); lia|].
  apply N.pow_le_mono_r; lia.
Qed.

Lemma decode_encode_string (s : string) (rest : list byte) :
  decode_string (encode_string s ++ rest) = Some (s, rest).
Proof.
  unfold decode_string, encode_string. rewrite <- app_assoc.
  rewrite decode_encode_varint, Nat2N.id.
  destruct (Nat.ltb_spec (length (list_byte_of_string s ++ rest))
                         (length (list_byte_of_string s))) as [Hlt|_].
  - rewrite length_app in Hlt. lia.
  - rewrite take_app_length, drop_app_length.
    by rewrite string_of_list_byte_of_string.
Qed.

Lemma decode_encode_position (p : option Position) (rest : list byte) :
  decode_position (encode_position p ++ rest) = Some (p, rest).
Proof.
  destruct p as [[segment offset]|]; [|done].
  simpl. rewrite <- app_assoc. by rewrite !decode_encode_varint.
Qed.

Lemma deserialize_payload (node : CommitNode) (padding : list byte) :
  deserialize (payload node ++ padding) = Some node.
Proof.
  unfold deserialize, payload. rewrite <- !app_assoc.
  rewrite !decode_encode_string, !decode_encode_position.
  by destruct node.
Qed.

(** C7. A node whose fields fit in the slot serializes to exactly
    [NODE_SIZE] bytes, and deserializing them gives back the same commit
    id, parent id, position and parent position. When the serialized
    commit id alone is longer than the slot, or the fields together are,
    [serialize] raises the too-large error. *)
Theorem serialize_roundtrip_or_reject (NODE_SIZE : nat) (node : CommitNode) :
  (length (payload node) <= NODE_SIZE ->
   exists slot,
     serialize NODE_SIZE node = Ok slot /\
     length slot = NODE_SIZE /\
     deserialize slot = Some node) /\
  (NODE_SIZE < length (payload node) ->
   serialize NODE_SIZE node
     = Raise (ValueError (NodeTooLarge (length (payload node)) NODE_SIZE))) /\
  (NODE_SIZE < length (encode_string (commit_id node)) ->
   serialize NODE_SIZE node
     = Raise (ValueError (NodeTooLarge (length (payload node)) NODE_SIZE))).
Proof.
  assert (Hlarge : NODE_SIZE < length (payload node) ->
    serialize NODE_SIZE node
      = Raise (ValueError (NodeTooLarge (length (payload node)) NODE_SIZE))).
  { intros Hlt. unfold serialize. apply Nat.ltb_lt in Hlt. by rewrite Hlt. }
  split; [|split; [done|]].
  - intros Hfit. unfold serialize.
    destruct (Nat.ltb_spec NODE_SIZE (length (payload node))) as [?|_]; [lia|].
    eexists. split; [reflexivity|]. split.
    + rewrite length_app, length_replicate. lia.
    + apply deserialize_payload.
  - intros Hid. apply Hlarge. unfold payload. rewrite length_app. lia.
Qed.

Lemma serialize_roundtrip_or_reject_witness :
  (exists slot,
     serialize 64 (mkNode "1030" "1001" (Some (0, 1)%N) (Some (1, 20)%N)) = Ok slot /\
     length slot = 64 /\
     deserialize slot = Some (mkNode "1030" "1001" (Some (0, 1)%N) (Some (1, 20)%N))) /\
  serialize 8 (mkNode "large_commit_" "" None None)
    = Raise (ValueError (NodeTooLarge 17 8)).
Proof.
  split.
  - apply (serialize_roundtrip_or_reject 64
             (mkNode "1030" "1001" (Some (0, 1)%N) (Some (1, 20)%N))).
    vm_compute. lia.
  - apply (serialize_roundtrip_or_reject 8 (mkNode "large_commit_" "" None None)).
    vm_compute. lia.
Defined.

(** The four nodes of [TestCommitNode.test_common], in slots of 64 bytes,
    checked by evaluation. *)
Example test_common_nodes :
  Forall (fun node =>
            match serialize 64 node with
            | Ok slot => length slot = 64 /\ deserialize slot = Some node
            | Raise _ => False
            end)
         [mkNode "1" "0" (Some (0, 1)%N) (Some (0, 0)%N);
          mkNode "1030" "1001" (Some (0, 1)%N) (Some (1, 20)%N);
          mkNode "40000" "1001" (Some (0, 1)%N) (Some (200, 2000)%N);
          mkNode "123456789" "123456789" (Some (100, 1000)%N) (Some (200, 2000)%N)].
Proof. repeat constructor. Qed.

End CommitNodeFacts.

Module PlanFacts.
Import Plan.

Section WithRuntime.
Context {Value Blob : Type}.
Variable dumps : gmap string Value -> option Blob.
Variable loads : Blob -> option (gmap string Value).
Variable run_cell : string -> gmap string Value -> gmap string Value.

(** C6. When the store holds no snapshot for the target commit and the
    plan is not made of reruns alone (it has a [LoadVariable] action),
    [RestorePlan.run] raises [CommitIdNotExist]. *)
Theorem restore_without_snapshot_raises (actions : list (RestoreAction Value))
    (store : gmap (string * VersionedName) Blob) (commit_id : string) :
  snapshots_of store commit_id = [] ->
  existsb is_load actions = true ->
  restore_run loads run_cell actions store commit_id
    = Raise (CommitIdNotExistError commit_id).
Proof.
  intros Hnone. unfold restore_run. generalize (mkRestoreState (Value := Value) ∅ []).
  induction actions as [|action actions IH]; intros st Hload; [done|].
  simpl in Hload. destruct action as [c names fb|c reqs fb|c src|c code]; simpl.
  - unfold load_variable. by rewrite Hnone.
  - destruct (incremental_load loads store reqs); by apply IH.
  - by apply IH.
  - by apply IH.
Qed.

(** A plan of reruns alone needs no snapshot. *)
Lemma restore_rerun_only (actions : list (RestoreAction Value))
    (store : gmap (string * VersionedName) Blob) (commit_id : string) :
  Forall (fun action => exists c code, action = RerunCell c code) actions ->
  exists st, restore_run loads run_cell actions store commit_id = Ok st /\
             fallbacked_actions st = [].
Proof.
  unfold restore_run.
  assert (Hst : fallbacked_actions (mkRestoreState (Value := Value) ∅ []) = []) by done.
  revert Hst. generalize (mkRestoreState (Value := Value) ∅ []).
  induction actions as [|action actions IH]; intros st Hst Hall; [by exists st|].
  apply Forall_cons in Hall as [(c & code & ->) Hall]. simpl. by apply IH.
Qed.

Lemma rerun_subseteq (N ns : gmap string Value) (code : string) :
  ns ⊆ N -> replays run_cell N code -> rerun run_cell ns code ⊆ N.
Proof. intros Hns Hcode. apply map_union_least; [by apply Hcode | done]. Qed.

Lemma rerun_dom (ns : gmap string Value) (code : string) :
  dom ns ⊆ dom (rerun run_cell ns code).
Proof. unfold rerun. rewrite dom_union_L. set_solver. Qed.

Lemma rerun_defines (ns : gmap string Value) (code name : string) :
  defines run_cell code name -> name ∈ dom (rerun run_cell ns code).
Proof.
  intros Hdef. unfold rerun. rewrite dom_union_L.
  apply elem_of_union_l, elem_of_dom, Hdef.
Qed.

Lemma run_fallback_inv (N : gmap string Value) (cells : list (nat * string))
    (ns : gmap string Value) :
  ns ⊆ N -> Forall (fun cell => replays run_cell N cell.2) cells ->
  run_fallback run_cell ns cells ⊆ N /\
  dom ns ⊆ dom (run_fallback run_cell ns cells) /\
  forall name, Exists (fun cell => defines run_cell cell.2 name) cells ->
    name ∈ dom (run_fallback run_cell ns cells).
Proof.
  revert ns. induction cells as [|cell cells IH]; intros ns Hns Hall.
  - split; [done|]. split; [done|]. intros name Hex. by apply Exists_nil in Hex.
  - apply Forall_cons in Hall as [Hcell Hall]. simpl.
    destruct (IH (rerun run_cell ns cell.2)) as (Hsub & Hdom & Hdef);
      [by apply rerun_subseteq | done |].
    split; [done|]. split.
    + etrans; [apply rerun_dom | exact Hdom].
    + intros name Hex. apply Exists_cons in Hex as [Hhere|Hlater].
      * apply Hdom. by apply rerun_defines.
      * by apply Hdef.
Qed.

Lemma run_actions_inv (N : gmap string Value)
    (store : gmap (string * VersionedName) Blob) (commit_id : string)
    (actions : list (RestoreAction Value)) (st : RestoreState Value) :
  result_ns st ⊆ N ->
  Forall (sound loads run_cell N store commit_id) actions ->
  exists st',
    run_actions loads run_cell store commit_id st actions = Ok st' /\
    result_ns st' ⊆ N /\
    dom (result_ns st) ⊆ dom (result_ns st') /\
    (forall name, Exists (provides loads run_cell store commit_id name) actions ->
       name ∈ dom (result_ns st')) /\
    fallbacked_actions st' =
      fallbacked_actions st ++ List.filter (load_fails loads store commit_id) actions.
Proof.
  revert st. induction actions as [|action actions IH]; intros st Hst Hall.
  - exists st. split; [done|]. split; [done|]. split; [done|]. split.
    + intros name Hex. by apply Exists_nil in Hex.
    + by rewrite app_nil_r.
  - apply Forall_cons in Hall as [Hact Hall].
    assert (Hstep : exists st1,
      run_action loads run_cell store commit_id st action = Ok st1 /\
      result_ns st1 ⊆ N /\
      dom (result_ns st) ⊆ dom (result_ns st1) /\
      (forall name, provides loads run_cell store commit_id name action ->
         name ∈ dom (result_ns st1)) /\
      fallbacked_actions st1 =
        fallbacked_actions st ++
        (if load_fails loads store commit_id action then [action] else [])).
    { destruct action as [c names fb|c reqs fb|c src|c code];
        simpl in Hact; try done; simpl.
      - destruct (load_variable loads store commit_id names) as [| |ns] eqn:Hload;
          [done| |].
        + destruct (run_fallback_inv N fb (result_ns st) Hst Hact) as (Hsub & Hdom & Hdef).
          eexists. split; [reflexivity|]. simpl.
          split; [done|]. split; [done|]. split; [|done].
          intros name Hp. by apply Hdef.
        + eexists. split; [reflexivity|]. simpl.
          split; [by apply map_union_least|].
          split; [rewrite dom_union_L; set_solver|].
          split; [|by rewrite app_nil_r].
          intros name Hp.
          rewrite dom_union_L. by apply elem_of_union_l, elem_of_dom.
      - eexists. split; [reflexivity|]. simpl.
        split; [by apply rerun_subseteq|].
        split; [apply rerun_dom|].
        split; [|by rewrite app_nil_r].
        intros name Hp. by apply rerun_defines. }
    destruct Hstep as (st1 & Hrun1 & Hsub1 & Hdom1 & Hprov1 & Hfb1).
    destruct (IH st1 Hsub1 Hall) as (st' & Hrun & Hsub & Hdom & Hprov & Hfb).
    exists st'. simpl. rewrite Hrun1.
    split; [done|]. split; [done|]. split; [by etrans|]. split.
    + intros name Hex. apply Exists_cons in Hex as [Hhere|Hlater].
      * apply Hdom. by apply Hprov1.
      * by apply Hprov.
    + rewrite Hfb, Hfb1, <- app_assoc.
      by destruct (load_fails loads store commit_id action).
Qed.

Lemma subseteq_dom_eq (m N : gmap string Value) :
  m ⊆ N -> dom N ⊆ dom m -> m = N.
Proof.
  intros Hsub Hdom. apply map_eq. intros name.
  destruct (N !! name) as [v|] eqn:HN.
  - assert (Hin : name ∈ dom m) by (apply Hdom, elem_of_dom; eauto).
    apply elem_of_dom in Hin as [w Hw].
    rewrite Hw. rewrite (lookup_weaken _ _ _ _ Hw Hsub) in HN. done.
  - by apply (lookup_weaken_None m N).
Qed.

(** When every action can only bring values of [N], and every name of
    [N] is brought by some action, the plan restores [N] and records the
    loads that failed, in plan order. *)
Lemma restore_run_equal (N : gmap string Value)
    (store : gmap (string * VersionedName) Blob) (commit_id : string)
    (actions : list (RestoreAction Value)) :
  Forall (sound loads run_cell N store commit_id) actions ->
  (forall name, name ∈ dom N -> Exists (provides loads run_cell store commit_id name) actions) ->
  restore_run loads run_cell actions store commit_id
    = Ok {| result_ns := N;
            fallbacked_actions :=
              List.filter (load_fails loads store commit_id) actions |}.
Proof.
  intros Hsound Hcover. unfold restore_run.
  destruct (run_actions_inv N store commit_id actions (mkRestoreState ∅ []))
    as (st' & Hrun & Hsub & _ & Hprov & Hfb); [apply map_empty_subseteq | done |].
  rewrite Hrun. destruct st' as [ns fb]. simpl in *. f_equal. f_equal; [|done].
  apply subseteq_dom_eq; [done|]. intros name Hin. by apply Hprov, Hcover.
Qed.

Lemma elem_of_snapshots_of (store : gmap (string * VersionedName) Blob)
    (commit_id : string) (blob : Blob) :
  blob ∈ snapshots_of store commit_id <->
  exists vn, store !! (commit_id, vn) = Some blob.
Proof.
  unfold snapshots_of. rewrite list_elem_of_fmap. split.
  - intros [[[c vn] b] [-> Hin]]. apply elem_of_map_to_list in Hin.
    apply map_lookup_filter_Some in Hin as [Hlook Hc]. simpl in Hc. subst c.
    by exists vn.
  - intros [vn Hlook]. exists ((commit_id, vn), blob). split; [done|].
    apply elem_of_map_to_list, map_lookup_filter_Some. done.
Qed.

Lemma store_variable_keeps (commit_id : string) (N : gmap string Value)
    (actions : list StoreVariable)
    (acc : gmap (string * VersionedName) Blob * list StoreVariable)
    (vn : VersionedName) (blob : Blob) :
  dumps (restrict vn.1 N) = Some blob ->
  acc.1 !! (commit_id, vn) = Some blob ->
  (foldl (store_variable dumps commit_id N) acc actions).1 !! (commit_id, vn)
    = Some blob.
Proof.
  intros Hd. revert acc. induction actions as [|a actions IH]; intros acc Hacc; [done|].
  simpl. apply IH. unfold store_variable.
  destruct (dumps (restrict (versioned_name a).1 N)) as [b|] eqn:Ha; [|done].
  simpl. unfold put. destruct (decide (versioned_name a = vn)) as [Heq|Hne].
  - rewrite Heq, lookup_insert_eq. rewrite Heq in Ha. congruence.
  - rewrite lookup_insert_ne; [done|]. congruence.
Qed.

(** What the store holds after a checkpoint: what it held, and the
    snapshots of the plan. *)
Lemma checkpoint_lookup (commit_id : string) (N : gmap string Value)
    (actions : list StoreVariable)
    (acc : gmap (string * VersionedName) Blob * list StoreVariable) :
  (forall key blob,
     (foldl (store_variable dumps commit_id N) acc actions).1 !! key = Some blob ->
     acc.1 !! key = Some blob \/
     exists a, a ∈ actions /\ key = (commit_id, versioned_name a) /\
               dumps (restrict (versioned_name a).1 N) = Some blob) /\
  (forall a blob, a ∈ actions ->
     dumps (restrict (versioned_name a).1 N) = Some blob ->
     (foldl (store_variable dumps commit_id N) acc actions).1
       !! (commit_id, versioned_name a) = Some blob).
Proof.
  revert acc. induction actions as [|a actions IH]; intros acc.
  - split; [by left|]. intros a blob Hin. by apply not_elem_of_nil in Hin.
  - destruct (IH (store_variable dumps commit_id N acc a)) as [IH1 IH2].
    split.
    + intros key blob Hkey. simpl in Hkey. apply IH1 in Hkey as [Hkey|Hkey].
      * unfold store_variable in Hkey.
        destruct (dumps (restrict (versioned_name a).1 N)) as [b|] eqn:Ha;
          [|by left].
        simpl in Hkey. unfold put in Hkey.
        destruct (decide ((commit_id, versioned_name a) = key)) as [<-|Hne].
        -- rewrite lookup_insert_eq in Hkey. injection Hkey as <-.
           right. exists a. split; [left|done].
        -- rewrite lookup_insert_ne in Hkey by done. by left.
      * destruct Hkey as (a' & Hin & -> & Hd). right. exists a'.
        split; [by right | done].
    + intros a' blob Hin Hd. simpl. apply elem_of_cons in Hin as [->|Hin].
      * apply store_variable_keeps; [done|].
        unfold store_variable. rewrite Hd. simpl. unfold put.
        by rewrite lookup_insert_eq.
      * by apply IH2.
Qed.

Lemma deserialize_all_subseteq (N : gmap string Value) (blobs : list Blob) :
  (forall blob, blob ∈ blobs -> exists ns, loads blob = Some ns /\ ns ⊆ N) ->
  exists all,
    deserialize_all loads blobs = Some all /\ all ⊆ N /\
    forall blob ns, blob ∈ blobs -> loads blob = Some ns -> dom ns ⊆ dom all.
Proof.
  induction blobs as [|b blobs IH]; intros Hall.
  - exists ∅. split; [done|]. split; [apply map_empty_subseteq|].
    intros blob ns Hin. by apply not_elem_of_nil in Hin.
  - destruct IH as (rest & Hrest & Hsub & Hdom).
    { intros blob Hin. apply Hall. by right. }
    destruct (Hall b) as (ns & Hns & HnsN); [left|].
    exists (ns ∪ rest). simpl. rewrite Hns, Hrest.
    split; [done|]. split; [by apply map_union_least|].
    intros blob ns' Hin Hns'. rewrite dom_union_L.
    apply elem_of_cons in Hin as [->|Hin].
    + assert (ns' = ns) as -> by congruence. set_solver.
    + specialize (Hdom blob ns' Hin Hns'). set_solver.
Qed.


Lemma restrict_lookup (names : list string) (ns : gmap string Value) (name : string) :
  name ∈ names -> restrict names ns !! name = ns !! name.
Proof.
  intros Hin. unfold restrict. rewrite map_lookup_filter.
  destruct (ns !! name) as [v|]; [|done]. simpl.
  by rewrite option_guard_True.
Qed.

Lemma restrict_subseteq (names : list string) (ns : gmap string Value) :
  restrict names ns ⊆ ns.
Proof. apply map_filter_subseteq. Qed.

(** After the checkpoint of a serializable [N] under a commit id that
    had no snapshot, a load of checkpointed variables of [N] succeeds
    and yields their values in [N]. *)
Lemma load_after_checkpoint (N : gmap string Value) (plan : CheckpointPlan)
    (store : gmap (string * VersionedName) Blob) (names : list string) :
  serializable dumps loads N ->
  (forall vn, store !! (checkpoint_commit_id plan, vn) = None) ->
  checkpoint_actions plan <> [] ->
  (forall name, name ∈ names ->
     name ∈ dom N /\
     exists a, a ∈ checkpoint_actions plan /\ name ∈ (versioned_name a).1) ->
  exists ns,
    load_variable loads (checkpoint_run dumps plan N store).1
                  (checkpoint_commit_id plan) names = Loaded ns /\
    ns ⊆ N /\ forall name, name ∈ names -> is_Some (ns !! name).
Proof.
  intros Hser Hfresh Hactions Hnames.
  destruct (checkpoint_lookup (checkpoint_commit_id plan) N
              (checkpoint_actions plan) (store, [])) as [Hfrom Hto].
  fold (checkpoint_run dumps plan N store) in Hfrom, Hto.
  set (store' := (checkpoint_run dumps plan N store).1) in *.
  assert (Hblob : forall blob, blob ∈ snapshots_of store' (checkpoint_commit_id plan) ->
            exists a, a ∈ checkpoint_actions plan /\
              loads blob = Some (restrict (versioned_name a).1 N)).
  { intros blob Hin. apply elem_of_snapshots_of in Hin as [vn Hvn].
    apply Hfrom in Hvn as [Hold|(a & Hin & _ & Hd)].
    - simpl in Hold. by rewrite Hfresh in Hold.
    - exists a. split; [done|].
      destruct (Hser (restrict (versioned_name a).1 N)) as (b & Hb & Hl);
        [apply restrict_subseteq|]. congruence. }
  assert (Hstored : forall a, a ∈ checkpoint_actions plan ->
            exists blob, blob ∈ snapshots_of store' (checkpoint_commit_id plan) /\
              loads blob = Some (restrict (versioned_name a).1 N)).
  { intros a Hin.
    destruct (Hser (restrict (versioned_name a).1 N)) as (b & Hb & Hl);
      [apply restrict_subseteq|].
    exists b. split; [|done]. apply elem_of_snapshots_of.
    exists (versioned_name a). by apply Hto. }
  destruct (deserialize_all_subseteq N (snapshots_of store' (checkpoint_commit_id plan)))
    as (all & Hall & Hsub & Hdom).
  { intros blob Hin. destruct (Hblob blob Hin) as (a & _ & Hl).
    eexists. split; [exact Hl | apply restrict_subseteq]. }
  assert (Hpresent : forall name, name ∈ names -> is_Some (all !! name)).
  { intros name Hin. destruct (Hnames name Hin) as (HinN & a & Ha & Hname).
    destruct (Hstored a Ha) as (blob & Hblobs & Hl).
    apply elem_of_dom, (Hdom blob _ Hblobs Hl), elem_of_dom.
    rewrite restrict_lookup by done. by apply elem_of_dom. }
  exists (restrict names all). split; [|split].
  - unfold load_variable.
    destruct (snapshots_of store' (checkpoint_commit_id plan)) as [|b blobs] eqn:Hsnap.
    + destruct (checkpoint_actions plan) as [|a actions] eqn:Hact; [done|].
      destruct (Hstored a) as (blob & Hin & _); [left|].
      by apply not_elem_of_nil in Hin.
    + rewrite Hall. simpl. unfold pick.
      assert (Hforall : forallb (fun name => bool_decide (is_Some (all !! name))) names
                        = true).
      { apply forallb_forall. intros name Hin. apply bool_decide_eq_true_2.
        apply Hpresent. by apply list_elem_of_In. }
      by rewrite Hforall.
  - etrans; [apply restrict_subseteq | done].
  - intros name Hin. rewrite restrict_lookup by done. by apply Hpresent.
Qed.


Lemma filter_load_fails_none (store : gmap (string * VersionedName) Blob)
    (commit_id : string) (actions : list (RestoreAction Value)) :
  Forall (fun action => load_fails loads store commit_id action = false) actions ->
  List.filter (load_fails loads store commit_id) actions = [].
Proof.
  induction 1 as [|action actions Hno _ IH]; [done|]. simpl. by rewrite Hno.
Qed.

Lemma filter_load_fails_all (store : gmap (string * VersionedName) Blob)
    (commit_id : string) (actions : list (RestoreAction Value)) :
  Forall (fun action => load_fails loads store commit_id action = is_load action)
         actions ->
  List.filter (load_fails loads store commit_id) actions = List.filter is_load actions.
Proof.
  induction 1 as [|action actions Heq _ IH]; [done|]. simpl. by rewrite Heq, IH.
Qed.

(** C2. Let [N] be a namespace all of whose parts serialize, checkpointed
    by [CheckpointPlan.run] under a commit id without earlier snapshots.
    A restore plan for that checkpoint, made of [LoadVariable] actions
    on stored variables of [N] and of [RerunCell] actions whose cells
    replay [N], in any mix, that loads or recomputes every name of [N],
    returns a namespace equal to [N], and falls back nowhere. *)
Theorem restore_after_checkpoint (N : gmap string Value) (plan : CheckpointPlan)
    (store : gmap (string * VersionedName) Blob)
    (actions : list (RestoreAction Value)) :
  serializable dumps loads N ->
  (forall vn, store !! (checkpoint_commit_id plan, vn) = None) ->
  Forall (restores_from run_cell N plan) actions ->
  (forall name, name ∈ dom N -> Exists (yields run_cell name) actions) ->
  restore_run loads run_cell actions (checkpoint_run dumps plan N store).1
              (checkpoint_commit_id plan)
    = Ok {| result_ns := N; fallbacked_actions := [] |}.
Proof.
  intros Hser Hfresh Hplan Hcover.
  set (store' := (checkpoint_run dumps plan N store).1).
  assert (Hload : forall c names fb,
            restores_from run_cell N plan (LoadVariable c names fb) ->
            exists ns, load_variable loads store' (checkpoint_commit_id plan) names
                         = Loaded ns /\
                       ns ⊆ N /\ forall name, name ∈ names -> is_Some (ns !! name)).
  { intros c names fb [Hne Hnames]. by apply load_after_checkpoint. }
  rewrite (restore_run_equal N store' (checkpoint_commit_id plan) actions).
  - f_equal. f_equal. apply filter_load_fails_none.
    eapply Forall_impl; [exact Hplan|].
    intros [c names fb|c reqs fb|c src|c code] Hact; try done. simpl.
    destruct (Hload c names fb Hact) as (ns & -> & _). done.
  - eapply Forall_impl; [exact Hplan|].
    intros [c names fb|c reqs fb|c src|c code] Hact; try done. simpl.
    destruct (Hload c names fb Hact) as (ns & -> & Hsub & _). done.
  - intros name Hin. specialize (Hcover name Hin).
    apply Exists_exists in Hcover as (action & Hact & Hy).
    apply Exists_exists. exists action. split; [done|].
    rewrite Forall_forall in Hplan. specialize (Hplan action Hact).
    destruct action as [c names fb|c reqs fb|c src|c code]; try done. simpl.
    destruct (Hload c names fb Hplan) as (ns & -> & _ & Hnames). by apply Hnames.
Qed.




End WithRuntime.

Import Samples.

Lemma restore_without_snapshot_raises_witness :
  restore_run digits_loads digits_run_cell
              [LoadVariable 1 ["a"] [(1, "a=1")]] ∅ "abc"
    = Raise (CommitIdNotExistError "abc").
Proof.
  apply (restore_without_snapshot_raises digits_loads digits_run_cell
           [LoadVariable 1 ["a"] [(1, "a=1")]] ∅ "abc");
    vm_compute; reflexivity.
Defined.

Lemma digits_assign (x d : ascii) (ns : gmap string Z) :
  digits_run_cell (String x (String "=" (String d EmptyString))) ns
    = <[String x EmptyString := (Z.of_nat (nat_of_ascii d) - 48)%Z]> ns.
Proof. reflexivity. Qed.

Lemma digits_serializable (N : gmap string Z) :
  map_Forall (fun _ v => (0 <= v)%Z) N ->
  serializable digits_dumps digits_loads N.
Proof.
  intros Hpos ns Hsub. exists (map_to_list ns). split; [done|].
  unfold digits_loads.
  assert (Hall : forallb (fun kv : string * Z => Z.leb 0 kv.2) (map_to_list ns) = true).
  { apply forallb_forall. intros [k v] Hin.
    apply list_elem_of_In, elem_of_map_to_list in Hin.
    apply Z.leb_le, (Hpos k). by apply (lookup_weaken ns N). }
  rewrite Hall. f_equal. apply list_to_map_to_list.
Qed.

Lemma restore_after_checkpoint_witness :
  restore_run digits_loads digits_run_cell load_a_rerun_b
              (checkpoint_run digits_dumps checkpoint_a ns_a1_b2 ∅).1 "1"
    = Ok {| result_ns := ns_a1_b2; fallbacked_actions := [] |}.
Proof.
  apply (restore_after_checkpoint digits_dumps digits_loads digits_run_cell
           ns_a1_b2 checkpoint_a ∅ load_a_rerun_b).
  - apply digits_serializable. unfold ns_a1_b2.
    apply map_Forall_insert_2; [lia|]. apply map_Forall_insert_2; [lia|].
    apply map_Forall_empty.
  - intros vn. apply lookup_empty.
  - apply Forall_cons. split; [|apply Forall_cons; split; [|apply Forall_nil_2]].
    + split; [discriminate|]. intros name Hin.
      apply list_elem_of_singleton in Hin as ->. split.
      * apply elem_of_dom. by eexists.
      * exists (mkStoreVariable (["a"], 1)). split; [left | left].
    + change (replays digits_run_cell ns_a1_b2 "b=2").
      intros ns Hsub. rewrite digits_assign. by apply insert_subseteq_l.
  - intros name Hin. unfold ns_a1_b2 in Hin.
    rewrite !dom_insert_L, dom_empty_L in Hin. set_unfold in Hin.
    destruct Hin as [->|[->|[]]].
    + left. simpl. left.
    + right. left. change (defines digits_run_cell "b=2" "b"). intros ns.
      rewrite digits_assign, lookup_insert_eq. by eexists.
Defined.


Lemma names_assign_name (ns : gmap string Z) :
  names_run_cell "f=c" ns =
  match ns !! "c" with Some v => <["f" := v]> ns | None => ns end.
Proof. reflexivity. Qed.

(** The fallback cell [f=c] binds nothing by itself: it reads [c]. *)
Lemma names_cell_reads : ~ defines names_run_cell "f=c" "f".
Proof.
  intros Hdef. destruct (Hdef ∅) as [v Hv].
  rewrite names_assign_name, lookup_empty in Hv. by rewrite lookup_empty in Hv.
Qed.


(** Scenarios 2 to 5 of the design document, by evaluation on the sample
    runtime. *)
Example scenarios_by_evaluation :
  let everything := mkCheckpointPlan "1" [mkStoreVariable (["a"; "b"], 1)] in
  let stored := (checkpoint_run digits_dumps everything ns_a1_b2 ∅).1 in
  restore_run digits_loads digits_run_cell
    [LoadVariable 1 ["a"; "b"] [(1, "a=1" +:+ newline +:+ "b=2")]] stored "1"
    = Ok {| result_ns := ns_a1_b2; fallbacked_actions := [] |} /\
  restore_run digits_loads digits_run_cell
    [RerunCell 1 ("a=1" +:+ newline +:+ "b=2")] stored "1"
    = Ok {| result_ns := ns_a1_b2; fallbacked_actions := [] |} /\
  restore_run digits_loads digits_run_cell load_a_rerun_b
    (checkpoint_run digits_dumps checkpoint_a ns_a1_b2 ∅).1 "1"
    = Ok {| result_ns := ns_a1_b2; fallbacked_actions := [] |} /\
  restore_run digits_loads digits_run_cell load_f
    (checkpoint_run digits_dumps checkpoint_f ns_bad ∅).1 "1"
    = Ok {| result_ns := ns_bad; fallbacked_actions := load_f |}.
Proof. repeat split; vm_compute; reflexivity. Qed.

End PlanFacts.


(** ** More of storage/branch.py *)

Module TextFacts.
Import Text.

Lemma has_char_app (c : ascii) (s t : string) :
  has_char c (s +:+ t) = has_char c s || has_char c t.
Proof.
  induction s as [|d s IH]; simpl; [done|]. rewrite IH. by rewrite orb_assoc.
Qed.

(** A text is cut in one way at the first occurrence of a separator. *)
Lemma app_sep_inj (c : ascii) (a1 a2 r1 r2 : string) :
  has_char c a1 = false -> has_char c a2 = false ->
  a1 +:+ String c r1 = a2 +:+ String c r2 ->
  a1 = a2 /\ r1 = r2.
Proof.
  revert a2. induction a1 as [|d a1 IH]; intros [|d2 a2]; simpl; intros H1 H2 Heq.
  - by inversion Heq.
  - inversion Heq; subst. by rewrite Ascii.eqb_refl in H2.
  - inversion Heq; subst. by rewrite Ascii.eqb_refl in H1.
  - inversion Heq; subst.
    apply orb_false_iff in H1 as [_ H1]. apply orb_false_iff in H2 as [_ H2].
    destruct (IH a2 H1 H2) as [-> ->]; done.
Qed.

End TextFacts.

Module BranchLaws.
Import Branch.

Lemma contains_branch_iff (t : gmap string string) (name : string) :
  _contains_branch t name = true <-> is_Some (t !! name).
Proof.
  unfold _contains_branch. split.
  - intros Hcount. apply Nat.eqb_eq in Hcount.
    destruct (filter _ _) as [|[k c] rows] eqn:Hrows; [done|].
    assert (Hin : (k, c) ∈ filter (fun r : string * string => r.1 = name) (map_to_list t))
      by (rewrite Hrows; left).
    apply list_elem_of_filter in Hin as [Hk Hin]. simpl in Hk. subst k.
    apply elem_of_map_to_list in Hin. eauto.
  - intros [c Hc]. apply Nat.eqb_eq.
    assert (Hperm : filter (fun r : string * string => r.1 = name) (map_to_list t)
                    ≡ₚ [(name, c)]).
    { apply NoDup_Permutation.
      - apply NoDup_filter, NoDup_map_to_list.
      - apply NoDup_singleton.
      - intros [k c']. rewrite list_elem_of_filter, elem_of_map_to_list,
          list_elem_of_singleton. simpl. split.
        + intros [-> Hk]. congruence.
        + intros [= -> ->]. done. }
    by rewrite Hperm.
Qed.

(** X1. Whatever [update_head] is given, when the head file can be read it
    writes a head that [get_head] reads back: detaching wins over a branch
    name, an argument left out keeps the old field, and the branch table is
    not touched. *)
Theorem update_head_then_get_head (kb : KishuBranch) (head : HeadBranch)
    (new_branch new_commit : option string) (is_detach : bool) :
  get_head kb = Ok head ->
  exists head',
    (update_head kb new_branch new_commit is_detach).1 = Ok head' /\
    get_head (update_head kb new_branch new_commit is_detach).2 = Ok head' /\
    branch_table (update_head kb new_branch new_commit is_detach).2 = branch_table kb /\
    branch_name head' =
      (if is_detach then None
       else match new_branch with Some b => Some b | None => branch_name head end) /\
    commit_id head' =
      (match new_commit with Some c => Some c | None => commit_id head end).
Proof.
  intros Hhead. unfold update_head. rewrite Hhead.
  eexists. split; [reflexivity|]. split; [reflexivity|]. split; [reflexivity|].
  destruct is_detach, new_branch, new_commit; done.
Qed.

Lemma update_head_then_get_head_witness :
  exists head',
    (update_head (mkStore ∅ None) (Some "main") (Some "c1") true).1 = Ok head' /\
    get_head (update_head (mkStore ∅ None) (Some "main") (Some "c1") true).2 = Ok head' /\
    branch_table (update_head (mkStore ∅ None) (Some "main") (Some "c1") true).2 = ∅ /\
    branch_name head' = None /\
    commit_id head' = Some "c1".
Proof.
  apply (update_head_then_get_head (mkStore ∅ None) no_head (Some "main") (Some "c1") true).
  reflexivity.
Defined.

(** X2. After [upsert_branch b c] the branch [b] is one row pointing to [c],
    whatever it pointed to before; the other branches and the head file
    are as they were; and upserting twice is upserting the last. *)
Theorem upsert_branch_then_get_branch (kb : KishuBranch) (b c : string) :
  get_branch (upsert_branch kb b c) b = [mkRow b c] /\
  (forall b', b' <> b -> get_branch (upsert_branch kb b c) b' = get_branch kb b') /\
  head_file (upsert_branch kb b c) = head_file kb /\
  (forall c0, upsert_branch (upsert_branch kb b c0) b c = upsert_branch kb b c).
Proof.
  unfold get_branch, upsert_branch, set_table. simpl. split; [|split; [|split]].
  - by rewrite lookup_insert_eq.
  - intros b' Hne. by rewrite lookup_insert_ne.
  - done.
  - intros c0. by rewrite insert_insert_eq.
Qed.

(** X3. [branches_for_commit c] lists, each once, the branches that point to
    [c]: the rows [get_branch] returns for their names. *)
Theorem branches_for_commit_exact (kb : KishuBranch) (c : string) :
  NoDup (branches_for_commit kb c) /\
  forall row, row ∈ branches_for_commit kb c <->
    row_commit_id row = c /\ get_branch kb (row_branch_name row) = [row].
Proof.
  unfold branches_for_commit. split.
  - apply NoDup_fmap_2_strong; [|apply NoDup_filter, NoDup_map_to_list].
    intros [k1 c1] [k2 c2] _ _ [= -> ->]. done.
  - intros [name commit]. rewrite list_elem_of_fmap. simpl. unfold get_branch. split.
    + intros [[k c'] [[= -> ->] Hin]]. apply list_elem_of_filter in Hin as [Hc Hin].
      simpl in Hc. subst c'. apply elem_of_map_to_list in Hin. by rewrite Hin.
    + intros [-> Hrow]. destruct (branch_table kb !! name) as [c'|] eqn:Hname; [|done].
      injection Hrow as ->. exists (name, c). split; [done|].
      apply list_elem_of_filter. split; [done|]. by apply elem_of_map_to_list.
Qed.

Lemma group_by_commit_lookup (rows : list (string * string)) (c : string) :
  foldl group_by_commit ∅ rows !! c =
    match filter (fun r : string * string => r.2 = c) rows with
    | [] => None
    | found => Some ((fun r => mkRow r.1 r.2) <$> found)
    end.
Proof.
  induction rows as [|r rows IH] using rev_ind; [done|].
  rewrite foldl_snoc, filter_app. unfold group_by_commit at 1.
  destruct (decide (r.2 = c)) as [Heq|Hne].
  - rewrite Heq, lookup_insert_eq. rewrite (filter_cons_True _ r []) by done.
    rewrite filter_nil. rewrite <- Heq in IH |- *. rewrite IH.
    destruct (filter _ rows) as [|r0 found].
    + done.
    + simpl. rewrite fmap_app. done.
  - rewrite lookup_insert_ne by done. rewrite (filter_cons_False _ r []) by done.
    rewrite filter_nil, app_nil_r. exact IH.
Qed.

(** X4. For a list of commit ids that SQLite takes as parameters,
    [branches_for_many_commits] maps each requested commit that has
    branches to what [branches_for_commit] returns for it, and has no entry
    for any other commit; for a longer list it returns the empty
    dictionary. *)
Theorem branches_for_many_commits_lookup (limit : nat) (kb : KishuBranch)
    (commit_ids : list string) :
  (length commit_ids <= limit ->
   forall c, branches_for_many_commits limit kb commit_ids !! c =
     if decide (c ∈ commit_ids /\ branches_for_commit kb c <> [])
     then Some (branches_for_commit kb c) else None) /\
  (limit < length commit_ids -> branches_for_many_commits limit kb commit_ids = ∅).
Proof.
  unfold branches_for_many_commits. split.
  - intros Hlen c. destruct (Nat.ltb_spec limit (length commit_ids)) as [?|_]; [lia|].
    rewrite group_by_commit_lookup, list_filter_filter. unfold branches_for_commit.
    destruct (decide (c ∈ commit_ids)) as [Hin|Hout].
    + assert (Hsame : filter (fun r : string * string => r.2 = c /\ r.2 ∈ commit_ids)
                             (map_to_list (branch_table kb))
                      = filter (fun r : string * string => r.2 = c)
                               (map_to_list (branch_table kb))).
      { apply list_filter_iff. intros r. split; [by intros [? _]|].
        intros Hr. split; [done|]. by rewrite Hr. }
      rewrite Hsame. clear Hsame.
      destruct (filter (fun r : string * string => r.2 = c)
                       (map_to_list (branch_table kb))) as [|r0 found].
      * rewrite decide_False; [done|]. by intros [_ ?].
      * by rewrite decide_True.
    + assert (Hnone : filter (fun r : string * string => r.2 = c /\ r.2 ∈ commit_ids)
                             (map_to_list (branch_table kb)) = []).
      { destruct (filter _ _) as [|r rows] eqn:Hrows; [done|].
        assert (Hr : r ∈ r :: rows) by left. rewrite <- Hrows in Hr.
        apply list_elem_of_filter in Hr as [[Hr Hin] _]. congruence. }
      rewrite Hnone. rewrite decide_False; [done|]. by intros [? _].
  - intros Hlen. apply Nat.ltb_lt in Hlen. by rewrite Hlen.
Qed.

Lemma branches_for_many_commits_lookup_witness :
  branches_for_many_commits 999 Samples.kb_two_branches ["c1"; "c9"] !! "c1"
    = Some (branches_for_commit Samples.kb_two_branches "c1") /\
  branches_for_many_commits 999 Samples.kb_two_branches ["c1"; "c9"] !! "c9" = None /\
  branches_for_many_commits 999 Samples.kb_two_branches ["c1"; "c9"] !! "c2" = None /\
  branches_for_many_commits 1 Samples.kb_two_branches ["c1"; "c9"] = ∅.
Proof.
  destruct (branches_for_many_commits_lookup 999 Samples.kb_two_branches ["c1"; "c9"])
    as [Hin _].
  destruct (branches_for_many_commits_lookup 1 Samples.kb_two_branches ["c1"; "c9"])
    as [_ Hover].
  assert (Hlen : length ["c1"; "c9"] <= 999) by (simpl; lia).
  split; [|split; [|split]].
  - rewrite (Hin Hlen "c1"). vm_compute. reflexivity.
  - rewrite (Hin Hlen "c9"). vm_compute. reflexivity.
  - rewrite (Hin Hlen "c2"). vm_compute. reflexivity.
  - apply Hover. simpl. lia.
Defined.

(** X5. A successful [delete_branch] removes the one branch named: [get_branch]
    finds it no more, every other branch and the head file are as they
    were, and deleting it again raises the not-found error. *)
Theorem delete_branch_removes (kb : KishuBranch) (head : HeadBranch) (b c : string) :
  get_head kb = Ok head ->
  branch_name head <> Some b ->
  branch_table kb !! b = Some c ->
  exists kb',
    delete_branch kb b = (Ok tt, kb') /\
    get_branch kb' b = [] /\
    (forall b', b' <> b -> get_branch kb' b' = get_branch kb b') /\
    head_file kb' = head_file kb /\
    delete_branch kb' b = (Raise (BranchNotFoundError b), kb').
Proof.
  intros Hhead Hne Hb.
  assert (Hdel : delete_branch kb b = (Ok tt, set_table (delete b (branch_table kb)) kb)).
  { unfold delete_branch. rewrite Hhead. rewrite decide_False by congruence.
    assert (Hc : _contains_branch (branch_table kb) b = true)
      by (apply contains_branch_iff; eauto).
    by rewrite Hc. }
  eexists. split; [exact Hdel|]. unfold get_branch. simpl.
  split; [by rewrite lookup_delete_eq|].
  split; [intros b' Hb'; by rewrite lookup_delete_ne|].
  split; [done|].
  unfold delete_branch.
  assert (Hhead' : get_head (set_table (delete b (branch_table kb)) kb) = Ok head)
    by exact Hhead.
  rewrite Hhead'. rewrite decide_False by congruence.
  assert (Hc : _contains_branch (delete b (branch_table kb)) b = false).
  { destruct (_contains_branch _ _) eqn:Hc; [|done].
    apply contains_branch_iff in Hc as [x Hx]. by rewrite lookup_delete_eq in Hx. }
  simpl. by rewrite Hc.
Qed.

Lemma delete_branch_removes_witness :
  exists kb',
    delete_branch Samples.kb_two_branches "dev" = (Ok tt, kb') /\
    get_branch kb' "dev" = [] /\
    (forall b', b' <> "dev" -> get_branch kb' b' = get_branch Samples.kb_two_branches b') /\
    head_file kb' = head_file Samples.kb_two_branches /\
    delete_branch kb' "dev" = (Raise (BranchNotFoundError "dev"), kb').
Proof.
  apply (delete_branch_removes Samples.kb_two_branches
           (mkHead (Some "main") (Some "c1")) "dev" "c2").
  - reflexivity.
  - discriminate.
  - reflexivity.
Defined.

Lemma rename_branch_ok (kb : KishuBranch) (head : HeadBranch) (old new c : string) :
  get_head kb = Ok head ->
  branch_table kb !! old = Some c ->
  branch_table kb !! new = None ->
  rename_branch kb old new =
    (Ok tt,
     {| branch_table := <[new := c]> (delete old (branch_table kb));
        head_file :=
          if decide (branch_name head = Some old)
          then Some (HeadJson (mkHead (Some new) (commit_id head)))
          else head_file kb |}).
Proof.
  intros Hhead Hold Hnew. unfold rename_branch.
  assert (Hc1 : _contains_branch (branch_table kb) old = true)
    by (apply contains_branch_iff; eauto).
  assert (Hc2 : _contains_branch (branch_table kb) new = false).
  { destruct (_contains_branch _ new) eqn:Hc; [|done].
    apply contains_branch_iff in Hc as [x Hx]. congruence. }
  rewrite Hc1, Hc2. simpl. unfold sql_rename. rewrite Hold.
  assert (Hhead1 : forall t, get_head (set_table t kb) = Ok head) by (intros; exact Hhead).
  rewrite Hhead1.
  destruct (decide (Some old = branch_name head)) as [Heq|Hne].
  - unfold update_head. rewrite Hhead1. simpl. rewrite decide_True by done. reflexivity.
  - rewrite decide_False by congruence. reflexivity.
Qed.

(** X6. Renaming a branch and renaming it back restores the branch table and
    the head file, when HEAD does not name the (absent) branch [new]. *)
Theorem rename_branch_round_trip (kb : KishuBranch) (head : HeadBranch)
    (old new c : string) :
  get_head kb = Ok head ->
  branch_name head <> Some new ->
  branch_table kb !! old = Some c ->
  branch_table kb !! new = None ->
  exists kb1,
    rename_branch kb old new = (Ok tt, kb1) /\
    get_branch kb1 new = [mkRow new c] /\
    get_branch kb1 old = [] /\
    rename_branch kb1 new old = (Ok tt, kb).
Proof.
  intros Hhead Hdangling Hold Hnew.
  assert (Hne : old <> new) by congruence.
  eexists. split; [by apply (rename_branch_ok kb head old new c)|].
  split; [unfold get_branch; simpl; by rewrite lookup_insert_eq|].
  split.
  { unfold get_branch; simpl. rewrite lookup_insert_ne by done.
    by rewrite lookup_delete_eq. }
  assert (Htable : <[old := c]> (delete new (<[new := c]> (delete old (branch_table kb))))
                   = branch_table kb).
  { rewrite delete_insert_eq.
    rewrite (delete_id (delete old (branch_table kb)) new)
      by (by rewrite lookup_delete_ne).
    rewrite insert_delete_eq. by apply insert_id. }
  destruct (decide (branch_name head = Some old)) as [Hon|Hoff].
  - erewrite (rename_branch_ok _ (mkHead (Some new) (commit_id head)) new old c);
      [|reflexivity
       |simpl; by rewrite lookup_insert_eq
       |simpl; rewrite lookup_insert_ne by done; by rewrite lookup_delete_eq].
    simpl. rewrite Htable. rewrite decide_True by done.
    destruct kb as [t f]. simpl in *. do 2 f_equal.
    unfold get_head in Hhead. simpl in Hhead.
    destruct head as [bn ci]. simpl in *. subst bn.
    destruct f as [[h| |]|]; simplify_eq/=; done.
  - erewrite (rename_branch_ok _ head new old c);
      [|exact Hhead
       |simpl; by rewrite lookup_insert_eq
       |simpl; rewrite lookup_insert_ne by done; by rewrite lookup_delete_eq].
    simpl. rewrite Htable. rewrite decide_False by done.
    by destruct kb.
Qed.

Lemma rename_branch_round_trip_witness :
  exists kb1,
    rename_branch Samples.kb_two_branches "dev" "feature" = (Ok tt, kb1) /\
    get_branch kb1 "feature" = [mkRow "feature" "c2"] /\
    get_branch kb1 "dev" = [] /\
    rename_branch kb1 "feature" "dev" = (Ok tt, Samples.kb_two_branches).
Proof.
  apply (rename_branch_round_trip Samples.kb_two_branches
           (mkHead (Some "main") (Some "c1")) "dev" "feature" "c2").
  - reflexivity.
  - discriminate.
  - reflexivity.
  - reflexivity.
Defined.

(** X26. [rename_branch] renames the row before it reads HEAD: on a head
    file that [get_head] cannot decode it raises with the branch already
    renamed, where [delete_branch], which reads HEAD first, raises and
    deletes nothing. *)
Theorem rename_branch_renames_before_head (kb : KishuBranch) (old new c : string) :
  head_file kb = Some UndecodableJson ->
  branch_table kb !! old = Some c ->
  branch_table kb !! new = None ->
  exists kb',
    rename_branch kb old new = (Raise UncaughtDecodeError, kb') /\
    get_branch kb' new = [mkRow new c] /\
    get_branch kb' old = [] /\
    head_file kb' = head_file kb /\
    delete_branch kb old = (Raise UncaughtDecodeError, kb).
Proof.
  intros Hfile Hold Hnew.
  assert (Hne : old <> new) by congruence.
  assert (Hc1 : _contains_branch (branch_table kb) old = true)
    by (apply contains_branch_iff; eauto).
  assert (Hc2 : _contains_branch (branch_table kb) new = false).
  { destruct (_contains_branch _ new) eqn:Hc; [|done].
    apply contains_branch_iff in Hc as [x Hx]. congruence. }
  eexists. split; [|split; [|split; [|split]]].
  - unfold rename_branch. rewrite Hc1, Hc2. simpl.
    unfold get_head. simpl. rewrite Hfile. reflexivity.
  - unfold get_branch, sql_rename. simpl. rewrite Hold. by rewrite lookup_insert_eq.
  - unfold get_branch, sql_rename. simpl. rewrite Hold.
    rewrite lookup_insert_ne by done. by rewrite lookup_delete_eq.
  - done.
  - unfold delete_branch, get_head. by rewrite Hfile.
Qed.

Lemma rename_branch_renames_before_head_witness :
  exists kb',
    rename_branch (mkStore (<["dev" := "c2"]> ∅) (Some UndecodableJson)) "dev" "feature"
      = (Raise UncaughtDecodeError, kb') /\
    get_branch kb' "feature" = [mkRow "feature" "c2"] /\
    get_branch kb' "dev" = [] /\
    head_file kb' = Some UndecodableJson /\
    delete_branch (mkStore (<["dev" := "c2"]> ∅) (Some UndecodableJson)) "dev"
      = (Raise UncaughtDecodeError, mkStore (<["dev" := "c2"]> ∅) (Some UndecodableJson)).
Proof.
  apply (rename_branch_renames_before_head
           (mkStore (<["dev" := "c2"]> ∅) (Some UndecodableJson)) "dev" "feature" "c2").
  - reflexivity.
  - reflexivity.
  - reflexivity.
Defined.

(** X7. [list_branch] lists every branch once, under its own name: a row is
    listed exactly when [get_branch] of its name returns it, no two rows
    listed share a branch name, and [_contains_branch] holds of exactly
    the names listed. *)
Theorem list_branch_exact (kb : KishuBranch) :
  NoDup (row_branch_name <$> list_branch kb) /\
  (forall row, row ∈ list_branch kb <-> get_branch kb (row_branch_name row) = [row]) /\
  (forall name, _contains_branch (branch_table kb) name = true
                <-> name ∈ row_branch_name <$> list_branch kb).
Proof.
  unfold list_branch. split; [|split].
  - rewrite <- list_fmap_compose.
    apply (NoDup_fst_map_to_list (branch_table kb)).
  - intros [b c]. unfold get_branch. simpl. rewrite list_elem_of_fmap. split.
    + intros [[b' c'] [Heq Hin]]. simpl in Heq. simplify_eq.
      apply elem_of_map_to_list in Hin. by rewrite Hin.
    + destruct (branch_table kb !! b) as [c'|] eqn:Hb; [|done].
      intros Heq. simplify_eq. exists (b, c). split; [done|].
      by apply elem_of_map_to_list.
  - intros name. rewrite contains_branch_iff. rewrite <- list_fmap_compose.
    rewrite list_elem_of_fmap. split.
    + intros [c Hc]. exists (name, c). split; [done|]. by apply elem_of_map_to_list.
    + intros [[b c] [-> Hin]]. apply elem_of_map_to_list in Hin. simpl. eauto.
Qed.

Lemma adjectives_no_separator :
  Forall (fun a => Text.has_char "_" a = false) BRANCH_NAME_ADJECTIVES.
Proof. apply (bool_decide_unpack _). vm_compute. reflexivity. Qed.

Lemma adjectives_NoDup : NoDup BRANCH_NAME_ADJECTIVES.
Proof. apply (bool_decide_unpack _). vm_compute. reflexivity. Qed.

Lemma nouns_NoDup : NoDup BRANCH_NAME_NOUNS.
Proof. apply (bool_decide_unpack _). vm_compute. reflexivity. Qed.

(** X8. Two draws of [random_branch_name] give the same name only when they
    drew the same adjective and the same noun: the word lists have no
    repeated word and no adjective holds the separator. *)
Theorem random_branch_name_injective (i j i' j' : nat) :
  i < length BRANCH_NAME_ADJECTIVES -> j < length BRANCH_NAME_NOUNS ->
  i' < length BRANCH_NAME_ADJECTIVES -> j' < length BRANCH_NAME_NOUNS ->
  random_branch_name i j = random_branch_name i' j' ->
  i = i' /\ j = j'.
Proof.
  intros Hi Hj Hi' Hj' Heq. unfold random_branch_name in Heq.
  apply list_lookup_lookup_total_lt in Hi, Hj, Hi', Hj'.
  pose proof adjectives_no_separator as Hsep.
  rewrite Forall_lookup in Hsep.
  apply TextFacts.app_sep_inj in Heq as [Ha Hn]; [|by eapply Hsep..].
  split.
  - eapply NoDup_lookup; [apply adjectives_NoDup|exact Hi|]. by rewrite Ha.
  - eapply NoDup_lookup; [apply nouns_NoDup|exact Hj|]. by rewrite Hn.
Qed.

Lemma random_branch_name_injective_witness :
  random_branch_name 3 7 = "atomic_core" /\ (3 = 3 /\ 7 = 7).
Proof.
  split; [vm_compute; reflexivity|].
  apply (random_branch_name_injective 3 7 3 7);
    [vm_compute; lia | vm_compute; lia | vm_compute; lia | vm_compute; lia | reflexivity].
Defined.

End BranchLaws.

Module CommitLaws.
Import Like Commit Jupyterint LikeFacts.

Section WithDill.
Context `{Dill}.

(** X9. What [store_commit] stored is what [get_commit] and
    [get_session_state] return, when [dill.loads] inverts [dill.dumps] on
    the entry and on its fingerprint; the full id then disambiguates to
    itself, the other commits read as before, and [keys_like] gains the
    new id where it matches and nothing else. *)
Theorem store_commit_then_get (kc kc' : KishuCommit) (e : CommitEntry) (n : nat) :
  store_commit kc e = (Ok n, kc') ->
  loads_entry (dumps_entry e) = Some e ->
  loads_state (dumps_state (active_vses_string e)) = Some (active_vses_string e) ->
  get_commit kc' (commit_id e) = Ok e /\
  get_session_state kc' (commit_id e) = Ok (active_vses_string e) /\
  disambiguate_commit kc' (commit_id e) = Ok (commit_id e) /\
  (forall id, id <> commit_id e ->
     get_commit kc' id = get_commit kc id /\
     get_session_state kc' id = get_session_state kc id) /\
  (forall p id, id ∈ keys_like kc' p <->
     id ∈ keys_like kc p \/ (id = commit_id e /\ like (p +:+ "%") id = true)).
Proof.
  unfold store_commit. intros Hstore Hentry Hstate.
  destruct (commit_entry_table kc !! commit_id e) eqn:Hfresh1; [done|].
  simpl in Hstore.
  destruct (session_state_table kc !! commit_id e) eqn:Hfresh2; [done|].
  simplify_eq.
  split; [unfold get_commit; simpl; by rewrite lookup_insert_eq, Hentry|].
  split; [unfold get_session_state; simpl; by rewrite lookup_insert_eq, Hstate|].
  split.
  { apply CommitFacts.disambiguate_exact. simpl. by rewrite lookup_insert_eq. }
  split.
  { intros id Hid. unfold get_commit, get_session_state. simpl.
    by rewrite !lookup_insert_ne. }
  intros p id. rewrite !CommitFacts.elem_of_keys_like. simpl.
  destruct (decide (id = commit_id e)) as [->|Hid].
  - rewrite lookup_insert_eq, Hfresh1. split.
    + intros [_ Hlike]. by right.
    + intros [[[] _]|[_ Hlike]]; [done|]. split; [eauto|done].
  - rewrite lookup_insert_ne by done. split.
    + intros Hid'. by left.
    + intros [Hid'|[Heq _]]; done.
Qed.

(** X10. [update_commit] rewrites the stored entry of a known commit and does
    nothing, silently, for an unknown one; it never touches the session
    states, the other entries or the set of stored ids. *)
Theorem update_commit_rewrites_known (kc : KishuCommit) (e : CommitEntry) :
  loads_entry (dumps_entry e) = Some e ->
  (commit_entry_table kc !! commit_id e = None -> update_commit kc e = kc) /\
  (is_Some (commit_entry_table kc !! commit_id e) ->
     get_commit (update_commit kc e) (commit_id e) = Ok e) /\
  (forall id, id <> commit_id e ->
     get_commit (update_commit kc e) id = get_commit kc id) /\
  (forall id, get_session_state (update_commit kc e) id = get_session_state kc id) /\
  (forall p, keys_like (update_commit kc e) p ≡ₚ keys_like kc p).
Proof.
  intros Hentry. unfold update_commit. split; [|split; [|split; [|split]]].
  - intros Hnone. destruct kc as [t s]. simpl in *. f_equal.
    apply map_eq. intros id. rewrite lookup_alter.
    case_decide; [subst; by rewrite Hnone|done].
  - intros [b Hb]. unfold get_commit. simpl. rewrite lookup_alter_eq, Hb. simpl.
    by rewrite Hentry.
  - intros id Hid. unfold get_commit. simpl. by rewrite lookup_alter_ne.
  - done.
  - intros p. apply NoDup_Permutation; [apply CommitFacts.NoDup_keys_like..|].
    intros id. rewrite !CommitFacts.elem_of_keys_like. simpl.
    rewrite lookup_alter. case_decide; [|done]. subst.
    by rewrite <- !not_eq_None_Some, fmap_None.
Qed.

(** X11. That the two tables hold the same ids is kept by [store_commit] and
    [update_commit]; while it holds, a [store_commit] that raises leaves
    both tables as they were, and the insert into [session_state] is not
    the one that fails. *)
Theorem same_ids_invariant (kc : KishuCommit) (e : CommitEntry) :
  same_ids kc ->
  same_ids (store_commit kc e).2 /\
  same_ids (update_commit kc e) /\
  (store_commit kc e).1 <> Raise (IntegrityError "session_state") /\
  (forall err, (store_commit kc e).1 = Raise err -> (store_commit kc e).2 = kc).
Proof.
  unfold same_ids, store_commit, update_commit. intros Hsame.
  destruct (commit_entry_table kc !! commit_id e) eqn:Hentry; simpl.
  - split; [done|]. split; [|done].
    apply set_eq. intros id. rewrite <- Hsame, !elem_of_dom, lookup_alter.
    case_decide; [|done]. subst. by rewrite Hentry.
  - assert (Hstate : session_state_table kc !! commit_id e = None).
    { apply not_elem_of_dom. rewrite <- Hsame. by apply not_elem_of_dom. }
    rewrite Hstate. simpl. split; [by rewrite !dom_insert_L, Hsame|].
    split; [|done].
    apply set_eq. intros id. rewrite <- Hsame, !elem_of_dom, lookup_alter.
    case_decide; [|done]. subst. by rewrite Hentry.
Qed.

(** X14. An empty id prefix matches every stored commit: [keys_like] of the
    empty text lists all ids, so [disambiguate_commit] of it raises
    not-found on an empty table and resolves to the only commit of a table
    with one. *)
Theorem keys_like_empty_prefix (kc : KishuCommit) :
  (forall id, id ∈ keys_like kc EmptyString <-> is_Some (commit_entry_table kc !! id)) /\
  (commit_entry_table kc = ∅ ->
     disambiguate_commit kc EmptyString = Raise (ValueError (NoCommitWithID EmptyString))) /\
  (forall c b, commit_entry_table kc = {[c := b]} ->
     disambiguate_commit kc EmptyString = Ok c).
Proof.
  split; [|split].
  - intros id. rewrite CommitFacts.elem_of_keys_like.
    change (EmptyString +:+ "%") with "%". rewrite like_percent_all.
    split; [by intros [Hid _]|by intros Hid].
  - intros Hempty. unfold disambiguate_commit, keys_like.
    rewrite Hempty, map_to_list_empty. reflexivity.
  - intros c b Hone. apply CommitFacts.disambiguate_single.
    unfold keys_like. rewrite Hone, map_to_list_singleton. simpl.
    change (EmptyString +:+ "%") with "%".
    rewrite filter_cons_True by apply like_percent_all. done.
Qed.

Section WithSqlite.
Variable SQLITE_MAX_VARIABLE_NUMBER : nat.

Lemma load_row_error (rows : list (string * bytes)) (err : GetCommitsError) :
  foldl load_row (inl err) rows = inl err.
Proof. induction rows as [|r rows IH]; [done|]. simpl. exact IH. Qed.

Lemma load_rows_ok (rows : list (string * bytes)) (acc : gmap string CommitEntry) :
  Forall (fun r => is_Some (loads_entry r.2)) rows ->
  NoDup rows.*1 ->
  exists m, foldl load_row (inr acc) rows = inr m /\
    forall id e, m !! id = Some e <->
      (exists b, (id, b) ∈ rows /\ loads_entry b = Some e) \/
      ((id ∉ rows.*1) /\ acc !! id = Some e).
Proof.
  revert acc. induction rows as [|[k b] rows IH]; intros acc Hall Hnd.
  - exists acc. split; [done|]. intros id e. split.
    + intros Hacc. right. split; [apply not_elem_of_nil|done].
    + intros [[b' [Hin _]]|[_ Hacc]]; [by apply elem_of_nil in Hin|done].
  - apply Forall_cons in Hall as [[e' He'] Hall].
    rewrite fmap_cons in Hnd. apply NoDup_cons in Hnd as [Hk Hnd].
    cbn [foldl load_row]. cbn [snd fst] in *. rewrite He'.
    destruct (IH (<[k := e']> acc) Hall Hnd) as [m [Hm Hlook]].
    exists m. split; [done|]. intros id e. rewrite Hlook. rewrite fmap_cons. cbn [fst].
    rewrite not_elem_of_cons. setoid_rewrite elem_of_cons.
    destruct (decide (id = k)) as [->|Hne].
    + rewrite lookup_insert_eq. split.
      * intros [[b' [Hin _]]|[_ Heq]].
        { exfalso. apply Hk. apply list_elem_of_fmap. by exists (k, b'). }
        left. exists b. split; [by left|congruence].
      * intros [[b' [[Heq|Hin] Hb']]|[[Hne _] _]]; [| |done].
        { right. split; [done|]. congruence. }
        exfalso. apply Hk. apply list_elem_of_fmap. by exists (k, b').
    + rewrite lookup_insert_ne by done. split.
      * intros [[b' [Hin Hb']]|[Hnot Hacc]]; [left; exists b'; eauto|by right].
      * intros [[b' [[Heq|Hin] Hb']]|[[_ Hnot] Hacc]];
          [congruence|left; exists b'; eauto|by right].
Qed.

(** X12. Within the variable limit and with stored entries that unpickle,
    [get_commits] returns for each requested id what [get_commit]
    returns for it, leaves out (without an error) the requested ids that
    are not stored, and holds no id that was not requested. *)
Theorem get_commits_agrees_with_get_commit (kc : KishuCommit) (commit_ids : list string) :
  length commit_ids <= SQLITE_MAX_VARIABLE_NUMBER ->
  (forall id b, id ∈ commit_ids -> commit_entry_table kc !! id = Some b ->
                is_Some (loads_entry b)) ->
  exists result,
    get_commits SQLITE_MAX_VARIABLE_NUMBER kc commit_ids = inr result /\
    forall id e, result !! id = Some e <-> id ∈ commit_ids /\ get_commit kc id = Ok e.
Proof.
  intros Hlimit Hloads. unfold get_commits.
  assert (Hlt : Nat.ltb SQLITE_MAX_VARIABLE_NUMBER (length commit_ids) = false)
    by (apply Nat.ltb_ge; lia).
  rewrite Hlt.
  set (rows := filter (fun r => r.1 ∈ commit_ids) (map_to_list (commit_entry_table kc))).
  assert (Hrows : forall r, r ∈ rows <->
            r.1 ∈ commit_ids /\ commit_entry_table kc !! r.1 = Some r.2).
  { intros [k b]. unfold rows. rewrite list_elem_of_filter, elem_of_map_to_list. done. }
  destruct (load_rows_ok rows ∅) as [m [Hm Hlook]].
  - apply Forall_forall. intros [k b] Hr. apply Hrows in Hr as [Hin Hb].
    by eapply Hloads.
  - unfold rows. apply NoDup_fmap_fst.
    + intros k b1 b2 H1 H2. apply list_elem_of_filter in H1 as [_ H1], H2 as [_ H2].
      apply elem_of_map_to_list in H1, H2. congruence.
    + apply NoDup_filter, NoDup_map_to_list.
  - exists m. split; [done|]. intros id e. rewrite Hlook. unfold get_commit. split.
    + intros [[b [Hin Hb]]|[_ Hempty]]; [|by rewrite lookup_empty in Hempty].
      apply Hrows in Hin as [Hin Hstored]. simpl in *.
      split; [done|]. by rewrite Hstored, Hb.
    + intros [Hin Hget]. left.
      destruct (commit_entry_table kc !! id) as [b|] eqn:Hb; [|done].
      exists b. split; [by apply Hrows|].
      destruct (loads_entry b); congruence.
Qed.

(** X13. [get_commits] raises on more ids than SQLite takes variables, and on
    a requested entry that does not unpickle. *)
Theorem get_commits_raises (kc : KishuCommit) (commit_ids : list string) :
  (SQLITE_MAX_VARIABLE_NUMBER < length commit_ids ->
     get_commits SQLITE_MAX_VARIABLE_NUMBER kc commit_ids = inl OperationalError) /\
  (length commit_ids <= SQLITE_MAX_VARIABLE_NUMBER ->
   (exists id b, id ∈ commit_ids /\ commit_entry_table kc !! id = Some b /\
                 loads_entry b = None) ->
     get_commits SQLITE_MAX_VARIABLE_NUMBER kc commit_ids = inl LoadsError).
Proof.
  unfold get_commits. split.
  - intros Hover. apply Nat.ltb_lt in Hover. by rewrite Hover.
  - intros Hlimit [id [b [Hin [Hb Hnone]]]].
    assert (Hlt : Nat.ltb SQLITE_MAX_VARIABLE_NUMBER (length commit_ids) = false)
      by (apply Nat.ltb_ge; lia).
    rewrite Hlt.
    assert (Hrow : (id, b) ∈ filter (fun r => r.1 ∈ commit_ids)
                                    (map_to_list (commit_entry_table kc))).
    { apply list_elem_of_filter. split; [done|]. by apply elem_of_map_to_list. }
    revert Hrow. generalize (∅ : gmap string CommitEntry).
    induction (filter _ _) as [|r rows IH]; intros acc Hrow.
    + by apply elem_of_nil in Hrow.
    + simpl. apply elem_of_cons in Hrow as [<-|Hrow].
      * simpl. rewrite Hnone. apply load_row_error.
      * destruct (loads_entry r.2); [by apply IH|apply load_row_error].
Qed.

End WithSqlite.

End WithDill.

Lemma store_commit_then_get_witness :
  @get_commit Samples.object_dill
    (@store_commit Samples.object_dill Samples.object_commits
       (Samples.entry_of "c1" "second" None)).2 "c1"
  = Ok (Samples.entry_of "c1" "second" None).
Proof.
  destruct (@store_commit_then_get Samples.object_dill Samples.object_commits
              (@store_commit Samples.object_dill Samples.object_commits
                 (Samples.entry_of "c1" "second" None)).2
              (Samples.entry_of "c1" "second" None) 33) as [Hget _].
  - vm_compute. reflexivity.
  - reflexivity.
  - reflexivity.
  - exact Hget.
Defined.

Lemma update_commit_rewrites_known_witness :
  @get_commit Samples.object_dill
    (@update_commit Samples.object_dill Samples.object_commits
       (Samples.entry_of "c0" "amended" None)) "c0"
  = Ok (Samples.entry_of "c0" "amended" None).
Proof.
  destruct (@update_commit_rewrites_known Samples.object_dill Samples.object_commits
              (Samples.entry_of "c0" "amended" None)) as [_ [Hget _]].
  - reflexivity.
  - apply Hget. vm_compute. eauto.
Defined.

Lemma same_ids_invariant_witness :
  @same_ids Samples.object_dill
    (@store_commit Samples.object_dill Samples.object_commits
       (Samples.entry_of "c1" "second" None)).2.
Proof.
  destruct (@same_ids_invariant Samples.object_dill Samples.object_commits
              (Samples.entry_of "c1" "second" None)) as [Hsame _].
  - vm_compute. reflexivity.
  - exact Hsame.
Defined.

Lemma get_commits_agrees_with_get_commit_witness :
  exists result,
    @get_commits Samples.object_dill 999 Samples.object_commits ["c0"; "zz"] = inr result /\
    forall id e, result !! id = Some e <->
      id ∈ ["c0"; "zz"] /\ @get_commit Samples.object_dill Samples.object_commits id = Ok e.
Proof.
  apply (@get_commits_agrees_with_get_commit Samples.object_dill 999
           Samples.object_commits ["c0"; "zz"]).
  - simpl. lia.
  - intros id b _ Hb. unfold Samples.object_commits in Hb. simpl in Hb.
    destruct (decide (id = "c0")) as [->|Hne].
    + rewrite lookup_insert_eq in Hb. inversion Hb. simpl. eauto.
    + rewrite lookup_insert_ne in Hb by done. by rewrite lookup_empty in Hb.
Defined.

End CommitLaws.

Module CellLaws.
Import Commit JupyterintCells.

(** X15. [_parse_cell_output] returns at the first output that is not the
    auto-save output: the outputs after it are not read (nor checked), and
    the result is not [None]. *)
Theorem parse_cell_output_first_visible (saves rest : list CellOutput) (o : CellOutput) :
  Forall (fun s => is_save_output s = inr true) saves ->
  is_save_output o = inr false ->
  _parse_cell_output (saves ++ o :: rest) = _parse_cell_output [o] /\
  _parse_cell_output (saves ++ o :: rest) <> inr None.
Proof.
  intros Hsaves Ho.
  assert (Hone : forall tail, _parse_cell_output (o :: tail) =
            match parse_output o with inl err => inl err | inr s => inr (Some s) end).
  { intros tail. simpl. by rewrite Ho. }
  assert (Heq : _parse_cell_output (saves ++ o :: rest) = _parse_cell_output [o]).
  { induction Hsaves as [|s saves Hs _ IH].
    - simpl app. by rewrite !Hone.
    - simpl. by rewrite Hs. }
  split; [exact Heq|]. rewrite Heq, Hone. by destruct (parse_output o).
Qed.

Lemma parse_cell_output_first_visible_witness :
  _parse_cell_output
    ([mkOutput (Some "display_data") None
        (Some (<["application/javascript" := SAVE_CMD]> ∅)) None None None]
     ++ mkOutput (Some "stream") (Some "1") None None None None
     :: [mkOutput (Some "sound") None None None None None])
  = inr (Some "1").
Proof.
  destruct (parse_cell_output_first_visible
              [mkOutput (Some "display_data") None
                 (Some (<["application/javascript" := SAVE_CMD]> ∅)) None None None]
              [mkOutput (Some "sound") None None None None None]
              (mkOutput (Some "stream") (Some "1") None None None None)) as [Heq _].
  - apply Forall_cons. split; [vm_compute; reflexivity|apply Forall_nil_2].
  - reflexivity.
  - rewrite Heq. reflexivity.
Defined.

(** X16. [_parse_cell_output] returns [None] exactly for a list (the empty one
    too) of auto-save outputs. *)
Theorem parse_cell_output_none (cell_outputs : list CellOutput) :
  _parse_cell_output cell_outputs = inr None <->
  Forall (fun s => is_save_output s = inr true) cell_outputs.
Proof.
  induction cell_outputs as [|o outs IH]; simpl.
  - split; [intros _; apply Forall_nil_2|done].
  - rewrite Forall_cons. destruct (is_save_output o) as [err|[|]].
    + split; [done|]. by intros [? _].
    + rewrite IH. split; [done|]. by intros [_ ?].
    + split; [|by intros [? _]]. by destruct (parse_output o).
Qed.

Section WithNbformat.
Variable writes : list NotebookCell -> string.

Lemma append_cell_error (cells : list NotebookCell) (err : NotebookError) :
  foldl append_cell (inl err) cells = inl err.
Proof. induction cells as [|c cells IH]; [done|]. simpl. exact IH. Qed.

Lemma append_cells_ok (cells : list NotebookCell) (acc nb_cells : list FormattedCell) :
  foldl append_cell (inr acc) cells = inr nb_cells ->
  exists formatted,
    nb_cells = acc ++ formatted /\
    Forall2 (fun cell f => format_cell cell = inr f) cells formatted.
Proof.
  revert acc. induction cells as [|c cells IH]; intros acc Hfold; simpl in Hfold.
  - exists []. split; [|constructor]. rewrite app_nil_r. congruence.
  - destruct (format_cell c) as [err|f] eqn:Hf.
    + by rewrite append_cell_error in Hfold.
    + destruct (IH _ Hfold) as [formatted [-> Hall]].
      exists (f :: formatted). split; [by rewrite <- app_assoc|].
      by constructor.
Qed.

Lemma append_cells_raise (cells : list NotebookCell) (acc : list FormattedCell)
    (c : NotebookCell) (err : NotebookError) :
  c ∈ cells -> format_cell c = inl err ->
  exists err', foldl append_cell (inr acc) cells = inl err'.
Proof.
  revert acc. induction cells as [|c' cells IH]; intros acc Hin Hc.
  - by apply elem_of_nil in Hin.
  - simpl. apply elem_of_cons in Hin as [<-|Hin].
    + rewrite Hc. rewrite append_cell_error. eauto.
    + destruct (format_cell c') as [err'|f]; [rewrite append_cell_error; eauto|].
      by apply IH.
Qed.

(** X17. When [_all_notebook_cells] returns, it returns one formatted cell for
    each cell of the notebook, in order, with the cell's type and source;
    a code cell carries its parsed output and its execution count, a
    markdown or raw cell neither. When a cell is of another type, or an
    output of a code cell cannot be parsed, it raises and returns no
    cells at all. *)
Theorem all_notebook_cells_shape (cells : list NotebookCell) :
  (forall raw nb_cells,
     _all_notebook_cells writes cells = inr (raw, nb_cells) ->
     raw = writes cells /\
     length nb_cells = length cells /\
     forall i c, cells !! i = Some c ->
       exists f, nb_cells !! i = Some f /\
         cell_type f = nb_cell_type c /\ source f = nb_source c /\
         (nb_cell_type c = "code" ->
            _parse_cell_output (nb_outputs c) = inr (output f) /\
            cell_execution_count f = nb_execution_count c) /\
         (nb_cell_type c <> "code" ->
            (nb_cell_type c = "markdown" \/ nb_cell_type c = "raw") /\
            output f = None /\ cell_execution_count f = None)) /\
  (forall c err, c ∈ cells -> format_cell c = inl err ->
     exists err', _all_notebook_cells writes cells = inl err').
Proof.
  unfold _all_notebook_cells. split.
  - intros raw nb_cells Hret.
    destruct (foldl append_cell (inr []) cells) as [err|out] eqn:Hfold; [done|].
    simplify_eq. apply append_cells_ok in Hfold as [formatted [-> Hall]]. simpl.
    split; [done|]. split; [symmetry; by eapply Forall2_length|].
    intros i c Hc.
    destruct (Forall2_lookup_l _ _ _ _ _ Hall Hc) as [f [Hf Hformat]].
    exists f. split; [done|]. unfold format_cell in Hformat.
    destruct (String.eqb (nb_cell_type c) "code") eqn:Hcode.
    + apply String.eqb_eq in Hcode.
      destruct (_parse_cell_output (nb_outputs c)) as [err|out]; [done|].
      simplify_eq. simpl. repeat split; done.
    + apply String.eqb_neq in Hcode.
      destruct (String.eqb (nb_cell_type c) "markdown") eqn:Hmd;
        [apply String.eqb_eq in Hmd|
         destruct (String.eqb (nb_cell_type c) "raw") eqn:Hraw;
           [apply String.eqb_eq in Hraw|]];
        simpl in Hformat; simplify_eq; simpl; repeat split; auto; done.
  - intros c err Hin Hc.
    destruct (append_cells_raise cells [] c err Hin Hc) as [err' Herr].
    rewrite Herr. eauto.
Qed.

End WithNbformat.

End CellLaws.

Module CommitIdLaws.
Import Text TextFacts JupyterintCells.

Lemma pretty_N_char_no_colon (d : N) : Ascii.eqb ":" (pretty_N_char d) = false.
Proof.
  destruct d as [|p]; [reflexivity|].
  do 4 (destruct p as [p|p|]; try reflexivity).
Qed.

Lemma pretty_N_go_no_colon (x : N) (s : string) :
  has_char ":" s = false -> has_char ":" (pretty_N_go x s) = false.
Proof.
  revert s. induction (N.lt_wf_0 x) as [x _ IH]. intros s Hs.
  destruct (decide (x = 0%N)) as [->|Hx]; [by rewrite pretty_N_go_0|].
  rewrite pretty_N_go_step by lia. apply IH.
  - apply N.div_lt; lia.
  - cbn [has_char]. by rewrite pretty_N_char_no_colon.
Qed.

Lemma pretty_N_no_colon (x : N) : has_char ":" (pretty x) = false.
Proof.
  unfold pretty, pretty_N. case_decide; [reflexivity|].
  by apply pretty_N_go_no_colon.
Qed.

Lemma pretty_Z_no_colon (x : Z) : has_char ":" (pretty x) = false.
Proof.
  destruct x as [|p|p]; [reflexivity| |].
  - apply (pretty_N_no_colon (N.pos p)).
  - change (pretty (Z.neg p)) with ("-" +:+ pretty (N.pos p)).
    rewrite has_char_app. by rewrite pretty_N_no_colon.
Qed.

(** X18. In counter mode the commit id tells the session and the execution
    count: two ids are equal only when both numbers are. *)
Theorem commit_id_counter_injective (session count session' count' : Z)
    (uuid uuid' : string) :
  _commit_id "counter" session count uuid = _commit_id "counter" session' count' uuid' ->
  session = session' /\ count = count'.
Proof.
  unfold _commit_id. simpl. intros Heq.
  apply app_sep_inj in Heq as [Hs Hc]; [|apply pretty_Z_no_colon..].
  split; by apply (inj pretty).
Qed.

Lemma commit_id_counter_injective_witness :
  _commit_id "counter" 2 17 "0f" = "2:17" /\ (2%Z = 2%Z /\ 17%Z = 17%Z).
Proof.
  split; [vm_compute; reflexivity|].
  apply (commit_id_counter_injective 2 17 2 17 "0f" "a0"). reflexivity.
Defined.

Lemma length_append (s t : string) :
  String.length (s +:+ t) = String.length s + String.length t.
Proof. induction s as [|c s IH]; simpl; [done|]. by rewrite IH. Qed.

Lemma substring_0_length (n : nat) (s : string) :
  String.length (String.substring 0 n s) = Nat.min n (String.length s).
Proof.
  revert s. induction n as [|n IH]; intros [|c s]; simpl; try done.
  by rewrite IH.
Qed.

Lemma substring_all (s : string) : String.substring 0 (String.length s) s = s.
Proof. induction s as [|c s IH]; simpl; congruence. Qed.

Lemma substring_split (n : nat) (s : string) :
  s = String.substring 0 n s +:+ String.substring n (String.length s - n) s.
Proof.
  revert s. induction n as [|n IH]; intros s.
  - rewrite Nat.sub_0_r, substring_all. by destruct s.
  - destruct s as [|c s]; [done|].
    change (String c s =
            String c (String.substring 0 n s +:+ String.substring n (String.length s - n) s)).
    f_equal. apply IH.
Qed.

(** X19. The text [post_run_cell] puts in the commit message keeps the first
    40 characters of the cell at most, ends with [...] exactly when some
    characters were dropped, and is never longer than 43 characters. *)
Theorem short_raw_cell_keeps_prefix (raw_cell : string) :
  String.length (short_raw_cell raw_cell) <= 43 /\
  exists kept dropped,
    raw_cell = kept +:+ dropped /\
    String.length kept <= 40 /\
    (dropped <> EmptyString -> String.length kept = 40) /\
    short_raw_cell raw_cell =
      kept +:+ (match dropped with EmptyString => EmptyString | String _ _ => "..." end).
Proof.
  unfold short_raw_cell.
  destruct (Nat.leb (String.length raw_cell) 40) eqn:Hlen.
  - apply Nat.leb_le in Hlen. split; [lia|].
    assert (Hempty : raw_cell = raw_cell +:+ EmptyString).
    { clear. induction raw_cell as [|c s IH]; [done|].
      change (String c s = String c (s +:+ EmptyString)). by f_equal. }
    exists raw_cell, EmptyString. by repeat split.
  - apply Nat.leb_gt in Hlen.
    pose proof (substring_0_length 40 raw_cell) as Hkept.
    rewrite Nat.min_l in Hkept by lia.
    split; [rewrite length_append, Hkept; simpl; lia|].
    exists (String.substring 0 40 raw_cell),
           (String.substring 40 (String.length raw_cell - 40) raw_cell).
    split; [apply substring_split|]. split; [lia|]. split; [done|].
    destruct (String.substring 40 _ raw_cell) as [|c s] eqn:Hdrop; [|done].
    exfalso. pose proof (substring_split 40 raw_cell) as Hsplit.
    rewrite Hdrop in Hsplit. apply (f_equal String.length) in Hsplit.
    rewrite length_append, Hkept in Hsplit. simpl in Hsplit. lia.
Qed.

End CommitIdLaws.

Module StepBranchLaws.
Import Branch JupyterintCells.

(** X20. After [_step_branch c], when the head file can be read, HEAD is at
    [c]; it stays on its branch, or with auto-branching gets a branch of
    the name drawn, or else stays detached; the branch of HEAD points to
    [c] and no other branch has moved. *)
Theorem step_branch_moves_head (auto : bool) (adj_idx noun_idx : nat)
    (kb : KishuBranch) (head : HeadBranch) (c : string) :
  get_head kb = Ok head ->
  exists kb' head',
    _step_branch auto adj_idx noun_idx kb c = (Ok tt, kb') /\
    get_head kb' = Ok head' /\
    commit_id head' = Some c /\
    branch_name head' =
      match branch_name head with
      | Some b => Some b
      | None => if auto then Some (random_branch_name adj_idx noun_idx) else None
      end /\
    (forall b, branch_name head' = Some b -> get_branch kb' b = [mkRow b c]) /\
    (forall b, branch_name head' <> Some b -> get_branch kb' b = get_branch kb b).
Proof.
  intros Hhead. unfold _step_branch, update_head. rewrite Hhead. simpl.
  destruct head as [[b|] old]; simpl.
  - rewrite andb_false_r. eexists _, _. split; [reflexivity|].
    split; [reflexivity|]. split; [done|]. split; [done|].
    unfold get_branch. simpl. split.
    + intros b' Hb'. simplify_eq. by rewrite lookup_insert_eq.
    + intros b' Hb'. rewrite lookup_insert_ne by congruence. done.
  - destruct auto; simpl.
    + eexists _, _. split; [reflexivity|]. split; [reflexivity|].
      split; [done|]. split; [done|]. unfold get_branch. simpl. split.
      * intros b' Hb'. simplify_eq. by rewrite lookup_insert_eq.
      * intros b' Hb'. rewrite lookup_insert_ne by congruence. done.
    + eexists _, _. split; [reflexivity|]. split; [reflexivity|].
      split; [done|]. split; [done|]. split; [done|done].
Qed.

Lemma step_branch_moves_head_witness :
  exists kb' head',
    _step_branch true 3 7 Samples.kb_two_branches "c9" = (Ok tt, kb') /\
    get_head kb' = Ok head' /\
    commit_id head' = Some "c9" /\
    branch_name head' = Some "main" /\
    (forall b, branch_name head' = Some b -> get_branch kb' b = [mkRow b "c9"]) /\
    (forall b, branch_name head' <> Some b ->
       get_branch kb' b = get_branch Samples.kb_two_branches b).
Proof.
  apply (step_branch_moves_head true 3 7 Samples.kb_two_branches
           (mkHead (Some "main") (Some "c1")) "c9").
  reflexivity.
Defined.

End StepBranchLaws.

Module CliLaws.
Import Text TextFacts Cli.

Lemma lines_single (s : string) :
  has_char (ascii_of_nat 10) s = false -> lines s = [s].
Proof.
  induction s as [|c s IH]; [done|]. cbn [has_char lines]. intros Hs.
  apply orb_false_iff in Hs as [Hc Hs]. rewrite Ascii.eqb_sym in Hc.
  by rewrite Hc, (IH Hs).
Qed.

Lemma lines_feed (s t : string) :
  has_char (ascii_of_nat 10) s = false ->
  lines (s +:+ JupyterintCells.line_feed +:+ t) = s :: lines t.
Proof.
  induction s as [|c s IH]; [done|]. cbn [has_char]. intros Hs.
  apply orb_false_iff in Hs as [Hc Hs]. rewrite Ascii.eqb_sym in Hc.
  change (lines (String c (s +:+ JupyterintCells.line_feed +:+ t)) = String c s :: lines t).
  cbn [lines]. by rewrite Hc, (IH Hs).
Qed.

(** The lines of entries joined by line feeds are the entries, when no
    entry holds a line feed. *)
Lemma lines_concat (entry : string) (entries : list string) :
  Forall (fun e => has_char (ascii_of_nat 10) e = false) (entry :: entries) ->
  lines (String.concat JupyterintCells.line_feed (entry :: entries)) = entry :: entries.
Proof.
  revert entry. induction entries as [|e entries IH]; intros entry Hall.
  - apply Forall_cons in Hall as [He _]. by apply lines_single.
  - apply Forall_cons in Hall as [He Hall].
    change (lines (entry +:+ JupyterintCells.line_feed +:+
                   String.concat JupyterintCells.line_feed (e :: entries))
            = entry :: e :: entries).
    rewrite lines_feed by done. by rewrite IH.
Qed.

Lemma has_char_concat (c : ascii) (sep : string) (l : list string) :
  has_char c sep = false ->
  Forall (fun s => has_char c s = false) l ->
  has_char c (String.concat sep l) = false.
Proof.
  intros Hsep. induction 1 as [|s l Hs Hl IH]; [done|].
  destruct l as [|s' l]; [done|].
  change (has_char c (s +:+ sep +:+ String.concat sep (s' :: l)) = false).
  by rewrite !has_char_app, Hs, Hsep, IH.
Qed.

(** X23. The text [_format_commit] returns is the entries of the printer
    joined by line feeds: the commit entry, the parent entry when asked
    for and known, the date, an empty entry, the message indented, an
    empty entry. The graph printer puts [* ] before the first entry and
    [| ] before each other entry. An entry is a line of the text when
    no field of the summary holds a line feed: then every line of the
    graph text is a line of the basic text after its prefix. (A line
    feed inside the message starts a line that has no prefix.) *)
Theorem format_commit_graph_prefixes (commit : CommitSummary) (include_parent_id : bool) :
  exists first rest,
    _format_commit commit include_parent_id false
      = String.concat JupyterintCells.line_feed (first :: rest) /\
    _format_commit commit include_parent_id true
      = String.concat JupyterintCells.line_feed
          (("* " +:+ first) :: ((fun entry => "| " +:+ entry) <$> rest)) /\
    length rest = (if include_parent_id && truthy (parent_id commit) then 5 else 4) /\
    rest !! (length rest - 2) = Some (indentation +:+ message commit) /\
    (include_parent_id && truthy (parent_id commit) = true <->
       ("Parent: " +:+ parent_id commit) ∈ rest) /\
    (single_line commit ->
       lines (_format_commit commit include_parent_id false) = first :: rest /\
       lines (_format_commit commit include_parent_id true)
         = ("* " +:+ first) :: ((fun line => "| " +:+ line) <$> rest)).
Proof.
  assert (Hrefs : single_line commit ->
    has_char (ascii_of_nat 10)
      (if truthy (String.concat ", " (branches commit ++ tags commit))
       then " (" +:+ String.concat ", " (branches commit ++ tags commit) +:+ ")"
       else EmptyString) = false).
  { intros Hsingle. do 4 apply Forall_cons in Hsingle as [_ Hsingle].
    destruct (truthy _); [|done].
    rewrite !has_char_app, has_char_concat by done. done. }
  set (ref_str := if truthy (String.concat ", " (branches commit ++ tags commit))
                  then " (" +:+ String.concat ", " (branches commit ++ tags commit) +:+ ")"
                  else EmptyString) in *.
  assert (Hfields : single_line commit ->
    has_char (ascii_of_nat 10) (commit_id commit) = false /\
    has_char (ascii_of_nat 10) (parent_id commit) = false /\
    has_char (ascii_of_nat 10) (message commit) = false /\
    has_char (ascii_of_nat 10) (timestamp commit) = false).
  { intros Hsingle. by do 4 apply Forall_cons in Hsingle as [? Hsingle]. }
  unfold _format_commit.
  destruct (include_parent_id && truthy (parent_id commit)) eqn:Hparent.
  - assert (Hbasic : _format_commit_output commit include_parent_id false =
              ["commit " +:+ commit_id commit +:+ ref_str;
               "Parent: " +:+ parent_id commit;
               "Date:   " +:+ timestamp commit;
               EmptyString; indentation +:+ message commit; EmptyString])
      by (unfold _format_commit_output; rewrite Hparent; reflexivity).
    assert (Hgraph : _format_commit_output commit include_parent_id true =
              ("* " +:+ "commit " +:+ commit_id commit +:+ ref_str) ::
              ((fun entry => "| " +:+ entry) <$>
               ["Parent: " +:+ parent_id commit;
                "Date:   " +:+ timestamp commit;
                EmptyString; indentation +:+ message commit; EmptyString]))
      by (unfold _format_commit_output; rewrite Hparent; reflexivity).
    rewrite Hbasic, Hgraph. eexists _, _.
    split; [reflexivity|]. split; [reflexivity|]. split; [reflexivity|].
    split; [reflexivity|]. split; [split; [intros _; left|done]|].
    intros Hsingle. destruct (Hfields Hsingle) as (Hid & Hpar & Hmsg & Htime).
    specialize (Hrefs Hsingle).
    rewrite !lines_concat; [done| |];
      repeat (apply Forall_cons; split); try apply Forall_nil_2;
      rewrite ?has_char_app, ?Hid, ?Hpar, ?Hmsg, ?Htime, ?Hrefs; done.
  - assert (Hbasic : _format_commit_output commit include_parent_id false =
              ["commit " +:+ commit_id commit +:+ ref_str;
               "Date:   " +:+ timestamp commit;
               EmptyString; indentation +:+ message commit; EmptyString])
      by (unfold _format_commit_output; rewrite Hparent; reflexivity).
    assert (Hgraph : _format_commit_output commit include_parent_id true =
              ("* " +:+ "commit " +:+ commit_id commit +:+ ref_str) ::
              ((fun entry => "| " +:+ entry) <$>
               ["Date:   " +:+ timestamp commit;
                EmptyString; indentation +:+ message commit; EmptyString]))
      by (unfold _format_commit_output; rewrite Hparent; reflexivity).
    rewrite Hbasic, Hgraph. eexists _, _.
    split; [reflexivity|]. split; [reflexivity|]. split; [reflexivity|].
    split; [reflexivity|]. split.
    { split; [done|]. intros Hin.
      repeat (apply elem_of_cons in Hin as [Hin|Hin]; [discriminate Hin|]).
      by apply elem_of_nil in Hin. }
    intros Hsingle. destruct (Hfields Hsingle) as (Hid & Hpar & Hmsg & Htime).
    specialize (Hrefs Hsingle).
    rewrite !lines_concat; [done| |];
      repeat (apply Forall_cons; split); try apply Forall_nil_2;
      rewrite ?has_char_app, ?Hid, ?Hpar, ?Hmsg, ?Htime, ?Hrefs; done.
Qed.

Lemma format_commit_graph_prefixes_witness :
  lines (_format_commit (mkSummary "c1" "c0" "x = 1" "today" ["main"] []) true true)
  = ["* commit c1 (main)"; "| Parent: c0"; "| Date:   today"; "| "; "|     x = 1"; "| "].
Proof.
  destruct (format_commit_graph_prefixes
              (mkSummary "c1" "c0" "x = 1" "today" ["main"] []) true)
    as (first & rest & Hbasic & _ & _ & _ & _ & Hlines).
  destruct Hlines as [Hb Hg].
  - repeat (apply Forall_cons; split); try apply Forall_nil_2; reflexivity.
  - rewrite Hg.
    assert (Heq : first :: rest =
              ["commit c1 (main)"; "Parent: c0"; "Date:   today"; ""; "    x = 1"; ""]).
    { rewrite <- Hb. vm_compute. reflexivity. }
    injection Heq as -> ->. reflexivity.
Defined.

(** With a line feed in the message, the graph text has a line without
    prefix. *)
Example format_commit_message_of_two_lines :
  lines (_format_commit
           (mkSummary "c1" "" ("a = 1" +:+ JupyterintCells.line_feed +:+ "b = 2")
                      "today" [] []) false true)
  = ["* commit c1"; "| Date:   today"; "| "; "|     a = 1"; "b = 2"; "| "].
Proof. vm_compute. reflexivity. Qed.

End CliLaws.

Module CheckoutLaws.
Import Commit Jupyterint.

Section WithDill.
Context `{Dill} {Value : Type}.
Variable incremental_scan : KishuForJupyter (Value := Value) -> string -> string -> result unit.

(** X21. [checkout] of a text that names no branch and matches no commit id
    raises the not-found [ValueError] and changes nothing: no row is
    logged. *)
Theorem checkout_unknown_ref (k : KishuForJupyter) (ref : string) (skip : bool) :
  Branch.get_branch (_kishu_branch k) ref = [] ->
  keys_like (_kishu_commit k) ref = [] ->
  checkout incremental_scan k ref skip = (Raise (ValueError (NoCommitWithID ref)), k).
Proof.
  intros Hbranch Hkeys. unfold checkout. rewrite Hbranch.
  unfold disambiguate_commit. by rewrite Hkeys.
Qed.

(** X22. A name of a branch is checked out as that branch even when it is a
    commit id too: the commit looked up is the one the branch points to.
    When that commit is unknown the error names the commit and nothing is
    logged; when its session state is missing the error comes after the
    first log row; otherwise the message names the branch and the commit
    and two rows are logged. *)
Theorem checkout_resolves_branch_first (k : KishuForJupyter) (ref c : string)
    (skip : bool) :
  Branch.branch_table (_kishu_branch k) !! ref = Some c ->
  (forall e, disambiguate_commit (_kishu_commit k) c = Raise e ->
     checkout incremental_scan k ref skip = (Raise e, k)) /\
  (forall c' e, disambiguate_commit (_kishu_commit k) c = Ok c' ->
     get_session_state (_kishu_commit k) c' = Raise e ->
     checkout incremental_scan k ref skip = (Raise e, write_row k "pre-checkout-time1")) /\
  (forall c' st, disambiguate_commit (_kishu_commit k) c = Ok c' ->
     get_session_state (_kishu_commit k) c' = Ok st ->
     incremental_cr k = false ->
     checkout incremental_scan k ref skip =
       (Ok ("Checkout " +:+ ref +:+ " (" +:+ c' +:+ ")."),
        write_row (write_row k "pre-checkout-time1") "pre-checkout-time")).
Proof.
  intros Hbranch. unfold checkout, Branch.get_branch. rewrite Hbranch. simpl.
  split; [|split].
  - intros e He. by rewrite He.
  - intros c' e Hc' He. by rewrite Hc', He.
  - intros c' st Hc' Hst Hcr. by rewrite Hc', Hst, Hcr.
Qed.

End WithDill.

Lemma checkout_unknown_ref_witness :
  checkout Samples.no_scan Samples.session_at_c0 "zz" false
  = (Raise (ValueError (NoCommitWithID "zz")), Samples.session_at_c0).
Proof.
  apply (checkout_unknown_ref Samples.no_scan Samples.session_at_c0 "zz" false).
  - reflexivity.
  - vm_compute. reflexivity.
Defined.

Lemma checkout_resolves_branch_first_witness :
  checkout Samples.no_scan Samples.session_at_c0 "main" true
  = (Ok "Checkout main (c1).",
     write_row (write_row Samples.session_at_c0 "pre-checkout-time1") "pre-checkout-time").
Proof.
  destruct (checkout_resolves_branch_first Samples.no_scan Samples.session_at_c0
              "main" "c1" true) as [_ [_ Hok]].
  - reflexivity.
  - apply (Hok "c1" (Some "vs")).
    + vm_compute. reflexivity.
    + vm_compute. reflexivity.
    + reflexivity.
Defined.

End CheckoutLaws.
